(** * Hierarchical power-report parser and projections

    A shallow embedding of [src/power_parsing/parse_power_report.py]:
    the classes [one_power_group] and [power_hierarchy] with
    [read_logfile], [iterate_data], [get_2d_hierarchy_data] and
    [get_filtered_dataframe], the part of the script that builds the
    table, and the parts of Python's [re], [float], list slicing and
    pandas that these call.

    Conventions of the embedding.
    - Text is ASCII: a Python [str] is a [string] of bytes.
    - A Python [float] is its exact decimal value in [Q]; IEEE rounding,
      infinities and NaN arithmetic are outside the model.
    - A Python [dict] is an association list in insertion order.
    - A raised exception is the [Raise] case of [result].
    - Of what the methods print, the warning of [read_logfile] for a
      body line without a match is kept ([stdout]); the other verbose
      and debugging lines change no result and are left out. *)

From Stdlib Require Import String Ascii List ZArith QArith Bool Lia Arith.
From Stdlib Require Import Permutation Sorted.
Import ListNotations.

Local Open Scope string_scope.
Local Open Scope list_scope.
Set Warnings "-register-all".

(* ================================================================== *)
(** * The fragment of Python's [re] used by the script *)
(* ================================================================== *)

Module Re.

(** Character classes, on ASCII. [\s] of a [str] pattern is
    [str.isspace], which on ASCII is 9-13, 28-31 and 32. *)
Definition code (a : ascii) : nat := nat_of_ascii a.

Definition is_digit (a : ascii) : bool :=
  (48 <=? code a)%nat && (code a <=? 57)%nat.

Definition is_alpha (a : ascii) : bool :=
  ((65 <=? code a)%nat && (code a <=? 90)%nat)
  || ((97 <=? code a)%nat && (code a <=? 122)%nat).

Definition is_word (a : ascii) : bool :=
  is_digit a || is_alpha a || (code a =? 95)%nat.

Definition is_space (a : ascii) : bool :=
  ((9 <=? code a)%nat && (code a <=? 13)%nat)
  || ((28 <=? code a)%nat && (code a <=? 32)%nat).

Definition is_char (c a : ascii) : bool := Ascii.eqb c a.

Definition newline : ascii := ascii_of_nat 10.

Definition not_newline (a : ascii) : bool := negb (Ascii.eqb a newline).

(** A pattern is a list of alternatives ([|] at top level), each a
    sequence of items: a one-character class under a quantifier, a
    capture parenthesis, or an anchor.  Every pattern of the script
    has this shape. *)
Inductive quant : Type := One | Star | Plus | Opt.

Inductive item : Type :=
| Chr (c : ascii -> bool) (q : quant)
| GroupOpen
| GroupClose
| Bol
| Eol.

Definition regex : Type := list (list item).

(** Greedy repetition with backtracking: take as many characters of
    the class as possible, then give characters back one at a time
    until the continuation [k] succeeds. *)
Fixpoint greedy {R : Type} (c : ascii -> bool)
         (k : list ascii -> nat -> option R)
         (s : list ascii) (pos : nat) : option R :=
  match s with
  | a :: s' =>
      if c a then
        match greedy c k s' (S pos) with
        | Some r => Some r
        | None => k s pos
        end
      else k s pos
  | [] => k s pos
  end.

(** [match_here p s pos opened caps]: match the sequence [p] against
    [s], the input from offset [pos] on.  [opened] is the stack of
    offsets of the open groups, [caps] the spans of the closed ones,
    last first.  The result is the end offset and the spans in the
    order the groups closed. *)
Fixpoint match_here (p : list item) (s : list ascii) (pos : nat)
         (opened : list nat) (caps : list (nat * nat))
  : option (nat * list (nat * nat)) :=
  match p with
  | [] => Some (pos, rev caps)
  | Chr c One :: p' =>
      match s with
      | a :: s' => if c a then match_here p' s' (S pos) opened caps else None
      | [] => None
      end
  | Chr c Opt :: p' =>
      match s with
      | a :: s' =>
          if c a then
            match match_here p' s' (S pos) opened caps with
            | Some r => Some r
            | None => match_here p' s pos opened caps
            end
          else match_here p' s pos opened caps
      | [] => match_here p' s pos opened caps
      end
  | Chr c Star :: p' =>
      greedy c (fun s1 pos1 => match_here p' s1 pos1 opened caps) s pos
  | Chr c Plus :: p' =>
      match s with
      | a :: s' =>
          if c a then
            greedy c (fun s1 pos1 => match_here p' s1 pos1 opened caps)
                   s' (S pos)
          else None
      | [] => None
      end
  | GroupOpen :: p' => match_here p' s pos (pos :: opened) caps
  | GroupClose :: p' =>
      match opened with
      | st :: opened' => match_here p' s pos opened' ((st, pos) :: caps)
      | [] => None
      end
  | Bol :: p' =>
      if (pos =? 0)%nat then match_here p' s pos opened caps else None
  | Eol :: p' =>
      match s with
      | [] => match_here p' s pos opened caps
      | [a] => if Ascii.eqb a newline
               then match_here p' s pos opened caps else None
      | _ => None
      end
  end.

(** The alternatives are tried in order at one offset. *)
Fixpoint match_alts (alts : regex) (s : list ascii) (pos : nat)
  : option (nat * list (nat * nat)) :=
  match alts with
  | [] => None
  | p :: alts' =>
      match match_here p s pos [] [] with
      | Some r => Some r
      | None => match_alts alts' s pos
      end
  end.

(** A match object: the span of the whole match and of each group. *)
Record match_obj : Type := MatchObj {
  m_start : nat;
  m_end : nat;
  m_spans : list (nat * nat)
}.

(** [re.search]: the leftmost offset at which the pattern matches. *)
Fixpoint search_from (r : regex) (s : list ascii) (pos : nat)
  : option match_obj :=
  match match_alts r s pos with
  | Some (e, caps) => Some (MatchObj pos e caps)
  | None =>
      match s with
      | [] => None
      | _ :: s' => search_from r s' (S pos)
      end
  end.

Definition search_regex (r : regex) (s : string) : option match_obj :=
  search_from r (list_ascii_of_string s) 0.

(** [m.group(n)] for [n >= 1], on the string that was searched. *)
Definition group (s : string) (m : match_obj) (n : nat) : string :=
  match nth_error (m_spans m) (n - 1) with
  | Some (a, b) => substring a (b - a) s
  | None => ""
  end.

(** ** Pattern syntax *)

Definition is_quant_char (a : ascii) : bool :=
  Ascii.eqb a "*" || Ascii.eqb a "+" || Ascii.eqb a "?".

(** The class denoted by [\x]; [None] for an escape the fragment does
    not have (letters and digits other than d, w, s, D, W, S). *)
Definition escape_class (x : ascii) : option (ascii -> bool) :=
  if Ascii.eqb x "d" then Some is_digit
  else if Ascii.eqb x "w" then Some is_word
  else if Ascii.eqb x "s" then Some is_space
  else if Ascii.eqb x "D" then Some (fun a => negb (is_digit a))
  else if Ascii.eqb x "W" then Some (fun a => negb (is_word a))
  else if Ascii.eqb x "S" then Some (fun a => negb (is_space a))
  else if is_digit x || is_alpha x then None
  else Some (is_char x).

(** The members of a bracket set up to the closing bracket: literal
    characters, [\x] escapes and [a-b] ranges. *)
Fixpoint parse_set (fuel : nat) (s : list ascii) (first : bool)
  : option ((ascii -> bool) * list ascii) :=
  match fuel with
  | O => None
  | S fuel' =>
      match s with
      | [] => None
      | "]"%char :: rest =>
          if first then
            match parse_set fuel' rest false with
            | Some (c, rest') =>
                Some (fun a => is_char "]" a || c a, rest')
            | None => None
            end
          else Some (fun _ => false, rest)
      | "\"%char :: x :: rest =>
          match escape_class x, parse_set fuel' rest false with
          | Some cx, Some (c, rest') => Some (fun a => cx a || c a, rest')
          | _, _ => None
          end
      | "\"%char :: [] => None
      | lo :: "-"%char :: hi :: rest =>
          if Ascii.eqb hi "]" then
            match parse_set fuel' ("-"%char :: hi :: rest) false with
            | Some (c, rest') => Some (fun a => is_char lo a || c a, rest')
            | None => None
            end
          else if (code lo <=? code hi)%nat then
            match parse_set fuel' rest false with
            | Some (c, rest') =>
                Some (fun a => ((code lo <=? code a)%nat
                                && (code a <=? code hi)%nat) || c a, rest')
            | None => None
            end
          else None
      | x :: rest =>
          match parse_set fuel' rest false with
          | Some (c, rest') => Some (fun a => is_char x a || c a, rest')
          | None => None
          end
      end
  end.

(** The quantifier after an atom, and the rest of the pattern.  A
    second quantifier character (lazy or possessive forms) is outside
    the fragment. *)
Definition parse_quant (s : list ascii) : option (quant * list ascii) :=
  match s with
  | q :: rest =>
      if is_quant_char q then
        match rest with
        | q2 :: _ =>
            if is_quant_char q2 then None
            else Some (if Ascii.eqb q "*" then Star
                       else if Ascii.eqb q "+" then Plus else Opt, rest)
        | [] => Some (if Ascii.eqb q "*" then Star
                      else if Ascii.eqb q "+" then Plus else Opt, rest)
        end
      else if Ascii.eqb q "{" then None
      else Some (One, s)
  | [] => Some (One, s)
  end.

(** A parenthesis or an anchor takes no quantifier. *)
Definition no_quant (s : list ascii) : bool :=
  match s with
  | q :: _ => negb (is_quant_char q || Ascii.eqb q "{")
  | [] => true
  end.

Definition add_item (i : item) (alts : regex) : regex :=
  match alts with
  | p :: alts' => (i :: p) :: alts'
  | [] => [[i]]
  end.

(** [parse fuel s in_group]: the alternatives of the pattern text
    [s].  Groups do not nest and hold no [|]. *)
Fixpoint parse (fuel : nat) (s : list ascii) (in_group : bool)
  : option regex :=
  match fuel with
  | O => None
  | S fuel' =>
      match s with
      | [] => if in_group then None else Some [[]]
      | "|"%char :: rest =>
          if in_group then None
          else match parse fuel' rest false with
               | Some alts => Some ([] :: alts)
               | None => None
               end
      | "("%char :: rest =>
          if in_group then None
          else match rest with
               | "?"%char :: _ => None
               | _ => match parse fuel' rest true with
                      | Some alts => Some (add_item GroupOpen alts)
                      | None => None
                      end
               end
      | ")"%char :: rest =>
          if in_group && no_quant rest then
            match parse fuel' rest false with
            | Some alts => Some (add_item GroupClose alts)
            | None => None
            end
          else None
      | "^"%char :: rest =>
          if no_quant rest then
            match parse fuel' rest in_group with
            | Some alts => Some (add_item Bol alts)
            | None => None
            end
          else None
      | "$"%char :: rest =>
          if no_quant rest then
            match parse fuel' rest in_group with
            | Some alts => Some (add_item Eol alts)
            | None => None
            end
          else None
      | "\"%char :: x :: rest =>
          match escape_class x with
          | Some c =>
              match parse_quant rest with
              | Some (q, rest') =>
                  match parse fuel' rest' in_group with
                  | Some alts => Some (add_item (Chr c q) alts)
                  | None => None
                  end
              | None => None
              end
          | None => None
          end
      | "\"%char :: [] => None
      | "["%char :: rest =>
          match rest with
          | "^"%char :: rest1 =>
              match parse_set fuel' rest1 true with
              | Some (c, rest2) =>
                  match parse_quant rest2 with
                  | Some (q, rest') =>
                      match parse fuel' rest' in_group with
                      | Some alts =>
                          Some (add_item (Chr (fun a => negb (c a)) q) alts)
                      | None => None
                      end
                  | None => None
                  end
              | None => None
              end
          | _ =>
              match parse_set fuel' rest true with
              | Some (c, rest2) =>
                  match parse_quant rest2 with
                  | Some (q, rest') =>
                      match parse fuel' rest' in_group with
                      | Some alts => Some (add_item (Chr c q) alts)
                      | None => None
                      end
                  | None => None
                  end
              | None => None
              end
          end
      | x :: rest =>
          if is_quant_char x || Ascii.eqb x "{" then None
          else
            let c := if Ascii.eqb x "." then not_newline else is_char x in
            match parse_quant rest with
            | Some (q, rest') =>
                match parse fuel' rest' in_group with
                | Some alts => Some (add_item (Chr c q) alts)
                | None => None
                end
            | None => None
            end
      end
  end.

Definition has_group (p : list item) : bool :=
  existsb (fun i => match i with GroupOpen => true | _ => false end) p.

(** [re.compile]: [None] when the text is not a pattern of the
    fragment (Python raises [re.error] or supports more syntax). *)
Definition compile (pat : string) : option regex :=
  let s := list_ascii_of_string pat in
  match parse (S (List.length s)) s false with
  | Some alts =>
      match alts with
      | [_] => Some alts
      | _ => if existsb has_group alts then None else Some alts
      end
  | None => None
  end.

(** [re.search(pat, s)]: [None] when [pat] does not compile,
    otherwise the match object or Python's [None]. *)
Definition search (pat s : string) : option (option match_obj) :=
  match compile pat with
  | Some r => Some (search_regex r s)
  | None => None
  end.

End Re.

(* ================================================================== *)
(** * Python values, exceptions and built-ins *)
(* ================================================================== *)

(** The exceptions the modelled code can raise. *)
Inductive exn : Type :=
| StopIteration
| ValueError
| IndexError
| AttributeError
| TypeError
| KeyError
| ReError
| AssertionError (msg : string).

Inductive result (A : Type) : Type :=
| Ok (a : A)
| Raise (e : exn).
Arguments Ok {A} a.
Arguments Raise {A} e.

Definition bind {A B : Type} (r : result A) (f : A -> result B) : result B :=
  match r with
  | Ok a => f a
  | Raise e => Raise e
  end.

Declare Scope py_scope.
Delimit Scope py_scope with py.
Notation "'do' x <- r ; k" := (bind r (fun x => k))
  (at level 10, x name, r at level 100, k at level 200) : py_scope.
Local Open Scope py_scope.

(** An element of a row: a string, a float, or Python's [None]. *)
Inductive cell : Type :=
| CStr (s : string)
| CNum (q : Q)
| CNone.

Module Py.

(** The double-quote character, for the messages that quote text. *)
Definition dquote : string := String (ascii_of_nat 34) "".

(** The end of a slice [l[:i]] or the place of [l[i:i]]: a negative
    index counts from the end and both are clipped to [0..len]. *)
Definition slice_index (len : nat) (i : Z) : nat :=
  if (i <? 0)%Z then Z.to_nat (Z.max 0 (Z.of_nat len + i))
  else Nat.min (Z.to_nat i) len.

(** [l[:i]] *)
Definition slice_to {A : Type} (l : list A) (i : Z) : list A :=
  firstn (slice_index (List.length l) i) l.

(** [l[:i] = v] *)
Definition assign_slice_to {A : Type} (l : list A) (i : Z) (v : list A)
  : list A :=
  v ++ skipn (slice_index (List.length l) i) l.

(** [l[i:i] = v] *)
Definition insert_at {A : Type} (l : list A) (i : Z) (v : list A)
  : list A :=
  let n := slice_index (List.length l) i in
  firstn n l ++ v ++ skipn n l.

(** [sep.join(xs)]: every element has to be a string. *)
Fixpoint join (sep : string) (xs : list cell) : result string :=
  match xs with
  | [] => Ok ""
  | [CStr s] => Ok s
  | CStr s :: xs' =>
      do r <- join sep xs' ; Ok (s ++ sep ++ r)%string
  | _ :: _ => Raise TypeError
  end.

(** [max(xs)] of a list of lengths. *)
Definition max_list (xs : list nat) : result nat :=
  match xs with
  | [] => Raise ValueError
  | x :: xs' => Ok (fold_left Nat.max xs' x)
  end.

(** ** [float(s)] on decimal literals *)

Fixpoint span (c : ascii -> bool) (s : list ascii)
  : list ascii * list ascii :=
  match s with
  | a :: s' =>
      if c a then let (t, r) := span c s' in (a :: t, r) else ([], s)
  | [] => ([], [])
  end.

Definition digit_val (a : ascii) : Z := Z.of_nat (Re.code a - 48).

Definition digits_val (ds : list ascii) : Z :=
  fold_left (fun acc a => (10 * acc + digit_val a)%Z) ds 0%Z.

Definition take_sign (s : list ascii) : bool * list ascii :=
  match s with
  | "-"%char :: r => (true, r)
  | "+"%char :: r => (false, r)
  | _ => (false, s)
  end.

(** The value [mant * 10^e10]. *)
Definition scale10 (mant e10 : Z) : Q :=
  if (0 <=? e10)%Z then inject_Z (mant * 10 ^ e10)
  else Qmake mant (Z.to_pos (10 ^ (- e10))).

(** [float(s)] for [s] of the form
    [sign? digits (. digits? )? (e sign? digits)?] or
    [sign? . digits (e sign? digits)?]; [ValueError] otherwise.  The
    other spellings Python accepts (blanks around, underscores, inf,
    nan) contain characters no [sci_num] token has. *)
Definition float (s : string) : result Q :=
  let (neg, s0) := take_sign (list_ascii_of_string s) in
  let (ip, s1) := span Re.is_digit s0 in
  let '(fp, s2) :=
    match s1 with
    | "."%char :: r => span Re.is_digit r
    | _ => ([], s1)
    end in
  match ip ++ fp with
  | [] => Raise ValueError
  | _ :: _ =>
      let mant := digits_val (ip ++ fp) in
      let mant := if neg then (- mant)%Z else mant in
      let frac := Z.of_nat (List.length fp) in
      match s2 with
      | [] => Ok (scale10 mant (- frac))
      | x :: r =>
          if Ascii.eqb x "e" || Ascii.eqb x "E" then
            let (eneg, r1) := take_sign r in
            let (ed, r2) := span Re.is_digit r1 in
            match ed, r2 with
            | _ :: _, [] =>
                let e := digits_val ed in
                let e := if eneg then (- e)%Z else e in
                Ok (scale10 mant (e - frac))
            | _, _ => Raise ValueError
            end
          else Raise ValueError
      end
  end.

End Py.

(* ================================================================== *)
(** * class one_power_group *)
(* ================================================================== *)

(** The two values [logfile_format] takes: the strings
    'Power Compiler' and 'Prime Power'. *)
Inductive format : Type := Power_Compiler | Prime_Power.

Record one_power_group : Type := mk_power_group {
  logfile_format : format;
  instance_name : string;
  type_name : string;
  switching_power : Q;
  internal_power : Q;
  leakage_power : Q;
  total_power : Q;
  pct : Q;
  glitch_power : option Q;
  x_tran_power : option Q
}.

Definition opt_cell (o : option Q) : cell :=
  match o with
  | Some q => CNum q
  | None => CNone
  end.

Definition get_data (g : one_power_group) : list cell :=
  match logfile_format g with
  | Power_Compiler =>
      [CNum (switching_power g); CNum (internal_power g);
       CNum (leakage_power g); CNum (total_power g); CNum (pct g);
       CStr (type_name g)]
  | Prime_Power =>
      [CNum (internal_power g); CNum (switching_power g);
       CNum (leakage_power g); opt_cell (glitch_power g);
       opt_cell (x_tran_power g); CNum (total_power g); CNum (pct g);
       CStr (type_name g)]
  end.

Definition get_header (fmt : format) : list string :=
  match fmt with
  | Power_Compiler =>
      ["Switching Power (mW)"; "Internal Power (mW)"; "Leakage Power (uW)";
       "Total Power (mW)"; "Pct of Total Power"; "Module Type Name"]
  | Prime_Power =>
      ["Internal Power (W)"; "Switching Power (W)"; "Leakage Power (W)";
       "Glitch Power (W)"; "X-tran Power (W)"; "Total Power (W)";
       "Pct of Total Power"; "Module Type Name"]
  end.

(* ================================================================== *)
(** * class power_hierarchy: the stored data *)
(* ================================================================== *)

(** A value of the nested dictionary: a dictionary again, or the power
    group of a record. *)
Inductive node : Type :=
| Dict (items : list (string * node))
| Group (g : one_power_group).

Definition dict : Type := list (string * node).

Section Dictionary.
Context {V : Type}.

(** [d.get(key)] *)
Fixpoint dict_get (d : list (string * V)) (key : string) : option V :=
  match d with
  | [] => None
  | (k, v) :: d' => if String.eqb k key then Some v else dict_get d' key
  end.

(** [d[key] = v]: an existing key keeps its place, a new one goes
    last. *)
Fixpoint dict_set (d : list (string * V)) (key : string) (v : V)
  : list (string * V) :=
  match d with
  | [] => [(key, v)]
  | (k, w) :: d' =>
      if String.eqb k key then (k, v) :: d'
      else (k, w) :: dict_set d' key v
  end.
End Dictionary.

Record power_hierarchy : Type := mk_hierarchy {
  data : dict;
  power_num_count : option nat;
  verbose : bool;
  max_depth : option Z;
  path_combine : bool;
  self_format : format
}.

(** [power_hierarchy.__init__] *)
Definition init (verbose : bool) (max_depth : option Z) (path_combine : bool)
  : power_hierarchy :=
  mk_hierarchy [] None verbose max_depth path_combine Power_Compiler.

Definition set_data (self : power_hierarchy) (d : dict) : power_hierarchy :=
  mk_hierarchy d (power_num_count self) (verbose self) (max_depth self)
               (path_combine self) (self_format self).

Definition set_format (self : power_hierarchy) (f : format)
  : power_hierarchy :=
  mk_hierarchy (data self) (power_num_count self) (verbose self)
               (max_depth self) (path_combine self) f.

Definition set_power_num_count (self : power_hierarchy) (n : nat)
  : power_hierarchy :=
  mk_hierarchy (data self) (Some n) (verbose self) (max_depth self)
               (path_combine self) (self_format self).

(** ** iterate_data *)

(** The rows below a value: a power group yields its data; a
    dictionary yields, for each item in order, the rows of the value,
    prefixed by the key when the value is a dictionary. *)
Fixpoint iterate_node (val : node) : list (list cell) :=
  match val with
  | Group g => [get_data g]
  | Dict items =>
      (fix iterate_items (l : list (string * node)) : list (list cell) :=
         match l with
         | [] => []
         | (key, v) :: l' =>
             match v with
             | Dict _ => map (cons (CStr key)) (iterate_node v)
             | Group _ => iterate_node v
             end ++ iterate_items l'
         end) items
  end.

Definition iterate_data (in_dict : dict) : list (list cell) :=
  iterate_node (Dict in_dict).

(** ** get_2d_hierarchy_data *)

Definition pad_entry (power_num_count max_hier_entries : nat)
           (entry : list cell) : list cell :=
  Py.insert_at entry (- Z.of_nat power_num_count)
               (repeat CNone (max_hier_entries - List.length entry)).

Definition combine_entry (power_num_count : nat) (entry : list cell)
  : result (list cell) :=
  let hier_level_ind :=
    (Z.of_nat (List.length entry) - Z.of_nat power_num_count)%Z in
  do hier_str <- Py.join "." (Py.slice_to entry hier_level_ind) ;
  Ok (Py.assign_slice_to entry hier_level_ind [CStr hier_str]).

Fixpoint map_result {A B : Type} (f : A -> result B) (l : list A)
  : result (list B) :=
  match l with
  | [] => Ok []
  | x :: l' =>
      do y <- f x ;
      do ys <- map_result f l' ;
      Ok (y :: ys)
  end.

(** The method sets [self.power_num_count] first, so the object it
    leaves behind is returned with the outcome. *)
Definition get_2d_hierarchy_data (self : power_hierarchy)
  : power_hierarchy * result (list (list cell)) :=
  let count := List.length (get_header (self_format self)) in
  let self' := set_power_num_count self count in
  let flat_data := iterate_data (data self') in
  (self',
   do max_hier_entries <- Py.max_list (map (@List.length cell) flat_data) ;
   if path_combine self' then map_result (combine_entry count) flat_data
   else Ok (map (pad_entry count max_hier_entries) flat_data)).

(* ================================================================== *)
(** * read_logfile *)
(* ================================================================== *)

(** there may be a number like 3.7858e-02 or 68.9913 *)
Definition sci_num : string := "\d+\.\d+e?[-+]?\d*".

Definition cat (l : list string) : string := String.concat "" l.

(** The f-strings of the two searches, with [sci_num] spliced in. *)
Definition power_compiler_pattern : string :=
  cat ["(\s*)(\w+)\s+\(*(\w*)\)*\s+("; sci_num; ")\s+("; sci_num; ")\s+(";
       sci_num; ")\s+("; sci_num; ")\s+("; sci_num; ")\s+"].

Definition prime_power_pattern : string :=
  cat ["(\s*)(\w+)\s+\(*(\w*)\)*\s+("; sci_num; ")\s+("; sci_num; ")\s+(";
       sci_num; ")\s+"; sci_num; "\s+"; sci_num; "-"; sci_num; "\s+";
       "("; sci_num; ")\s+("; sci_num; ")\s+("; sci_num; ")\s+("; sci_num;
       ")"].

Definition group_pattern (fmt : format) : string :=
  match fmt with
  | Power_Compiler => power_compiler_pattern
  | Prime_Power => prime_power_pattern
  end.

(** [re.search(pat, s)], raising [re.error] for a pattern that does
    not compile. *)
Definition search (pat s : string) : result (option Re.match_obj) :=
  match Re.search pat s with
  | Some m => Ok m
  | None => Raise ReError
  end.

(** What the method prints when verbose: the warning for a body line
    without a match, with its line number and text. *)
Inductive output : Type :=
| Warning_no_match (line_no : nat) (line : string).

(** The object and the local variables of the loop of [read_logfile]. *)
Record reader : Type := mk_reader {
  self : power_hierarchy;
  look_for_power_nums : bool;
  hier_list : list string;
  prev_level : Z;
  stdout : list output
}.

(** The floats of a matching line that are converted before the depth
    test: switching, internal, total, pct, glitch and x-tran power. *)
Definition early_floats (fmt : format) (group : nat -> string)
  : result (Q * Q * Q * Q * option Q * option Q) :=
  match fmt with
  | Power_Compiler =>
      do switch_power <- Py.float (group 4%nat) ;
      do internal_power <- Py.float (group 5%nat) ;
      do total_power <- Py.float (group 7%nat) ;
      do pct <- Py.float (group 8%nat) ;
      Ok (switch_power, internal_power, total_power, pct, None, None)
  | Prime_Power =>
      do internal_power <- Py.float (group 4%nat) ;
      do switch_power <- Py.float (group 5%nat) ;
      do glitch_power <- Py.float (group 7%nat) ;
      do x_tran_power <- Py.float (group 8%nat) ;
      do total_power <- Py.float (group 9%nat) ;
      do pct <- Py.float (group 10%nat) ;
      Ok (switch_power, internal_power, total_power, pct,
          Some glitch_power, Some x_tran_power)
  end.

(** [[hier_list.pop() for i in range(k)]] *)
Definition pop_levels (hier_list : list string) (k : nat)
  : result (list string) :=
  if (List.length hier_list <? k)%nat then Raise IndexError
  else Ok (firstn (List.length hier_list - k) hier_list).

(** [hier_list[-1] = instance_name] *)
Definition set_last (hier_list : list string) (instance_name : string)
  : result (list string) :=
  match hier_list with
  | [] => Raise IndexError
  | _ :: _ => Ok (removelast hier_list ++ [instance_name])
  end.

(** The path stack after a record at [level]. *)
Definition update_hier_list (hier_list : list string) (prev_level level : Z)
           (instance_name : string) : result (list string) :=
  do hl <- (if (level >? prev_level)%Z then Ok (hier_list ++ [instance_name])
            else if (level <? prev_level)%Z
                 then pop_levels hier_list (Z.to_nat (prev_level - level))
                 else Ok hier_list) ;
  set_last hl instance_name.

(** Index the dictionary by each element of [hier_list], creating the
    missing dictionaries, then set [instance_name] in the last one.
    When an element leads to a power group, the next step is
    [data.keys()] (AttributeError) or, after the last element, the
    item assignment (TypeError). *)
Fixpoint insert_group (hier_list : list string) (instance_name : string)
         (power_group_obj : one_power_group) (data : dict) : result dict :=
  match hier_list with
  | [] => Ok (dict_set data instance_name (Group power_group_obj))
  | hier_elem :: rest =>
      match match dict_get data hier_elem with
            | Some v => v
            | None => Dict []
            end with
      | Dict child =>
          do child' <- insert_group rest instance_name power_group_obj child ;
          Ok (dict_set data hier_elem (Dict child'))
      | Group _ =>
          match rest with
          | [] => Raise TypeError
          | _ :: _ => Raise AttributeError
          end
      end
  end.

Definition too_deep (max_depth : option Z) (level : Z) : bool :=
  match max_depth with
  | Some d => (level >? d)%Z
  | None => false
  end.

(** What the search and the conversions make of a body line: no
    match, a record below [max_depth] (dropped), or a record with its
    level, instance name and power group. *)
Inductive parsed_line : Type :=
| No_match
| Too_deep
| Record_at (level : Z) (instance_name : string)
            (power_group_obj : one_power_group).

Definition parse_record (fmt : format) (max_depth : option Z)
           (line : string) : result parsed_line :=
  do power_group_search <- search (group_pattern fmt) line ;
  match power_group_search with
  | Some m =>
      let group := Re.group line m in
      do early <- early_floats fmt group ;
      let '(switch_power, internal_power, total_power, pct,
            glitch_power, x_tran_power) := early in
      let level := (Z.of_nat (String.length (group 1%nat)) / 2)%Z in
      if too_deep max_depth level then Ok Too_deep
      else
        let instance_name := group 2%nat in
        let type_name := group 3%nat in
        do leakage_power <- Py.float (group 6%nat) ;
        Ok (Record_at level instance_name
              (mk_power_group fmt instance_name type_name switch_power
                              internal_power leakage_power total_power pct
                              glitch_power x_tran_power))
  | None => Ok No_match
  end.

(** "add to data": the path stack moves to the record and the power
    group is stored under it. *)
Definition accept (st : reader) (level : Z) (instance_name : string)
           (power_group_obj : one_power_group) : result reader :=
  do hier_list' <- update_hier_list (hier_list st) (prev_level st)
                                    level instance_name ;
  do data' <- insert_group hier_list' instance_name power_group_obj
                           (data (self st)) ;
  Ok (mk_reader (set_data (self st) data') (look_for_power_nums st)
                hier_list' level (stdout st)).

Definition warn (st : reader) (line_no : nat) (line : string) : reader :=
  mk_reader (self st) (look_for_power_nums st) (hier_list st)
            (prev_level st) (stdout st ++ [Warning_no_match line_no line]).

(** One line of the body of the report. *)
Definition body_line (st : reader) (line_no : nat) (line : string)
  : result reader :=
  do r <- parse_record (self_format (self st)) (max_depth (self st)) line ;
  match r with
  | Record_at level instance_name power_group_obj =>
      accept st level instance_name power_group_obj
  | Too_deep => Ok st
  | No_match => Ok (if verbose (self st) then warn st line_no line else st)
  end.

(** The outcome of [read_logfile]: the object and what was printed,
    or the exception together with the line number and line that the
    handler prints before it raises again. *)
Inductive parse_outcome : Type :=
| Parsed (st : reader)
| Failed (e : exn) (line_no : nat) (line : string).

(** The loop over [enumerate(logfile)].  The line that [next(logfile)]
    takes after the 'Hierarchy' line is not counted by [enumerate]. *)
Fixpoint read_lines (st : reader) (line_no : nat) (lines : list string)
  : parse_outcome :=
  match lines with
  | [] => Parsed st
  | line :: rest =>
      if negb (look_for_power_nums st) then
        match search "Hierarchy" line with
        | Raise e => Failed e line_no line
        | Ok (Some _) =>
            match rest with
            | [] => Failed StopIteration line_no line
            | _ :: rest' =>
                read_lines (mk_reader (self st) true (hier_list st)
                                      (prev_level st) (stdout st))
                           (S line_no) rest'
            end
        | Ok None =>
            match search "Glitch|X-tran" line with
            | Raise e => Failed e line_no line
            | Ok (Some _) =>
                read_lines (mk_reader (set_format (self st) Prime_Power)
                                      false (hier_list st) (prev_level st)
                                      (stdout st))
                           (S line_no) rest
            | Ok None => read_lines st (S line_no) rest
            end
        end
      else
        match body_line st line_no line with
        | Ok st' => read_lines st' (S line_no) rest
        | Raise e => Failed e line_no line
        end
  end.

Definition read_logfile (self : power_hierarchy) (logfile : list string)
  : parse_outcome :=
  read_lines (mk_reader self false [] (-1) []) 0 logfile.

Definition nl : string := String Re.newline "".

(* ================================================================== *)
(** * The pandas operations of get_filtered_dataframe *)
(* ================================================================== *)

(** A data frame after [set_index(0)]: the column names and, per row,
    the index label and the values. *)
Record DataFrame : Type := mk_frame {
  columns : list string;
  rows : list (string * list cell)
}.

Module Pd.

Fixpoint index_of (name : string) (cols : list string) : option nat :=
  match cols with
  | [] => None
  | c :: cols' =>
      if String.eqb c name then Some 0%nat
      else option_map S (index_of name cols')
  end.

(** The value of a row in column [j]; a missing value is NaN. *)
Definition value (j : nat) (row : string * list cell) : cell :=
  nth j (snd row) CNone.

(** [pd.DataFrame(data_2d)], [set_index(0)] and the assignment of
    [columns]: the first element of each row is its label, shorter
    rows are filled with NaN, and the number of value columns has to
    be the number of names. *)
Definition label_row (width : nat) (entry : list cell)
  : result (string * list cell) :=
  match entry with
  | CStr label :: values =>
      Ok (label, values ++ repeat CNone (width - List.length values))
  | _ => Raise TypeError
  end.

Definition make_frame (data_2d : list (list cell)) (header : list string)
  : result DataFrame :=
  do width <- Py.max_list (map (@List.length cell) data_2d) ;
  if (width - 1 =? List.length header)%nat then
    do labelled <- map_result (label_row (width - 1)) data_2d ;
    Ok (mk_frame header labelled)
  else Raise ValueError.

(** [a] is placed before [b] by a descending sort: larger numbers
    and larger strings first, NaN last. *)
Definition before (a b : cell) : bool :=
  match a, b with
  | CNum x, CNum y => negb (Qle_bool x y)
  | CStr x, CStr y => String.ltb y x
  | CNum _, CNone => true
  | CStr _, CNone => true
  | _, _ => false
  end.

Definition is_num (c : cell) : bool :=
  match c with CNum _ => true | _ => false end.

Definition is_str (c : cell) : bool :=
  match c with CStr _ => true | _ => false end.

Fixpoint insert_sorted (j : nat) (x : string * list cell)
         (l : list (string * list cell)) : list (string * list cell) :=
  match l with
  | [] => [x]
  | y :: l' =>
      if before (value j y) (value j x) then y :: insert_sorted j x l'
      else x :: y :: l'
  end.

(** [sort_values(by, ascending=False)]: KeyError for an unknown
    column, TypeError for a column that mixes numbers and strings.
    Rows with equal keys keep their order (pandas does not promise
    an order for them). *)
Definition sort_values (df : DataFrame) (by_col : string)
  : result DataFrame :=
  match index_of by_col (columns df) with
  | None => Raise KeyError
  | Some j =>
      let keys := map (value j) (rows df) in
      if existsb is_num keys && existsb is_str keys then Raise TypeError
      else Ok (mk_frame (columns df)
                        (fold_right (insert_sorted j) [] (rows df)))
  end.

(** [range(a, b)] *)
Definition range (a b : Z) : list Z :=
  map (fun i => (a + Z.of_nat i)%Z) (seq 0 (Z.to_nat (b - a))).

(** Positional access [l[i]] with negative positions from the end. *)
Definition at_position {A : Type} (l : list A) (i : Z) : result A :=
  let n := Z.of_nat (List.length l) in
  let i' := if (i <? 0)%Z then (i + n)%Z else i in
  if (0 <=? i')%Z && (i' <? n)%Z then
    match nth_error l (Z.to_nat i') with
    | Some x => Ok x
    | None => Raise IndexError
    end
  else Raise IndexError.

(** [df.iloc[positions]] *)
Definition iloc (df : DataFrame) (positions : list Z)
  : result (list (string * list cell)) :=
  map_result (at_position (rows df)) positions.

(** [frame.sum()]: one value per column.  A column of numbers is
    added up, NaN counting for nothing; a column of strings is
    concatenated. *)
Definition num_of (c : cell) : Q :=
  match c with CNum q => q | _ => 0 end.

Definition str_of (c : cell) : string :=
  match c with CStr s => s | _ => "" end.

Definition sum_cells (cs : list cell) : cell :=
  if existsb is_str cs then CStr (String.concat "" (map str_of cs))
  else CNum (fold_right Qplus 0 (map num_of cs)).

Definition sum (cols : list string) (rs : list (string * list cell))
  : list cell :=
  map (fun j => sum_cells (map (value j) rs)) (seq 0 (List.length cols)).

(** [series[name] = v] for a name among the columns. *)
Fixpoint set_nth {A : Type} (n : nat) (v : A) (l : list A) : list A :=
  match n, l with
  | O, _ :: l' => v :: l'
  | S n', x :: l' => x :: set_nth n' v l'
  | _, [] => []
  end.

Definition set_item (cols : list string) (series : list cell)
           (name : string) (v : cell) : list cell :=
  match index_of name cols with
  | Some j => set_nth j v series
  | None => series
  end.

(** [df.drop(labels)]: every row that carries one of the labels
    goes. *)
Definition drop (df : DataFrame) (labels : list string) : DataFrame :=
  mk_frame (columns df)
           (filter (fun r => negb (existsb (String.eqb (fst r)) labels))
                   (rows df)).

(** [df.append(series)] with the series' name as label. *)
Definition append (df : DataFrame) (name : string) (series : list cell)
  : DataFrame :=
  mk_frame (columns df) (rows df ++ [(name, series)]).

End Pd.

(* ================================================================== *)
(** * get_filtered_dataframe *)
(* ================================================================== *)

(** The rows in dot notation: [len(row) - self.power_num_count] is a
    TypeError while the count is [None]. *)
Definition dot_notate (count : option nat) (pair : list cell)
  : result (list cell) :=
  match count with
  | None => Raise TypeError
  | Some c => combine_entry c pair
  end.

Definition dot_notated_rows (self : power_hierarchy)
  : result (list (list cell)) :=
  map_result (dot_notate (power_num_count self)) (iterate_data (data self)).

Definition top_block_marker : string := "\^*<top block>".
Definition top_block_prefix : string := "^<top block>\.".

(** One step of the loop over [filt_str_list]. *)
Definition anchor (filt : string) : string :=
  match Re.search top_block_marker filt with
  | Some (Some _) => filt
  | _ => (top_block_prefix ++ filt)%string
  end.

(** The first filter that the label matches, if any. *)
Fixpoint first_match (filt_str_list : list string) (label : string)
  : result (option string) :=
  match filt_str_list with
  | [] => Ok None
  | filt_str :: rest =>
      do m <- search filt_str label ;
      match m with
      | Some _ => Ok (Some filt_str)
      | None => first_match rest label
      end
  end.

Definition entry_label (entry : list cell) : result string :=
  match entry with
  | CStr label :: _ => Ok label
  | _ => Raise TypeError
  end.

(** The loop over [data_2d]: the kept entries and [filters_used]. *)
Fixpoint filter_entries (filt_str_list : list string)
         (data_2d : list (list cell)) (filters_used : list (string * bool))
  : result (list (list cell) * list (string * bool)) :=
  match data_2d with
  | [] => Ok ([], filters_used)
  | entry :: rest =>
      do label <- entry_label entry ;
      do hit <- first_match filt_str_list label ;
      match hit with
      | Some filt_str =>
          do r <- filter_entries filt_str_list rest
                                 (dict_set filters_used filt_str true) ;
          Ok (entry :: fst r, snd r)
      | None => filter_entries filt_str_list rest filters_used
      end
  end.

Definition is_used (filters_used : list (string * bool)) (filt : string)
  : bool :=
  match dict_get filters_used filt with
  | Some b => b
  | None => false
  end.

(** The text [unused_filters]: each unused filter in quotes, followed
    by a comma and a blank. *)
Definition unused_filters (filt_str_list : list string)
           (filters_used : list (string * bool)) : string :=
  cat (map (fun filt =>
              if is_used filters_used filt then ""
              else cat [Py.dquote; filt; Py.dquote; ", "])
           filt_str_list).

Definition all_filters_used (filt_str_list : list string)
           (filters_used : list (string * bool)) : bool :=
  forallb (is_used filters_used) filt_str_list.

(** The rows past [max_entries] become one row 'Other'. *)
Definition condense (filt_df : DataFrame) (plot_col graph_kind : string)
           (max_entries : Z) : result DataFrame :=
  if (Z.of_nat (List.length (rows filt_df)) >? max_entries)%Z then
    let other_range :=
      Pd.range max_entries (Z.of_nat (List.length (rows filt_df))) in
    do cut <- Pd.iloc filt_df other_range ;
    let other_series :=
      Pd.set_item (columns filt_df) (Pd.sum (columns filt_df) cut)
                  "Module Type Name" (CStr "Other") in
    let filt_df := Pd.drop filt_df (map fst cut) in
    let filt_df := Pd.append filt_df "Other" other_series in
    if String.eqb graph_kind "pie" then Pd.sort_values filt_df plot_col
    else Ok filt_df
  else Ok filt_df.

(** From the filter loop to the first [sort_values]: the frame whose
    length is compared with [max_entries]. *)
Definition sorted_frame (self : power_hierarchy)
           (data_2d : list (list cell)) (filt_str_list : list string)
           (plot_col : string) : result DataFrame :=
  let filters_used := fold_left (fun d filt => dict_set d filt false)
                                filt_str_list [] in
  do r <- filter_entries filt_str_list data_2d filters_used ;
  let '(filtered_data_2d, filters_used) := r in
  if negb (all_filters_used filt_str_list filters_used) then
    Raise (AssertionError
             (cat ["Filter(s) did not collect any data: ";
                   unused_filters filt_str_list filters_used]))
  else
    match filtered_data_2d with
    | [] => Raise (AssertionError
                     "No filtered data was collected. Check -gt argument")
    | _ :: _ =>
        do filt_df <- Pd.make_frame filtered_data_2d
                                    (get_header (self_format self)) ;
        Pd.sort_values filt_df plot_col
    end.

(** [get_filtered_dataframe]: the list object [top_name] as the call
    leaves it, and the outcome.  The rows are built before the list is
    touched, so an exception there leaves the list as it was. *)
Definition get_filtered_dataframe (self : power_hierarchy)
           (top_name : list string) (plot_col graph_kind : string)
           (max_entries : Z) : list string * result DataFrame :=
  match dot_notated_rows self with
  | Raise e => (top_name, Raise e)
  | Ok data_2d =>
      let filt_str_list := map anchor top_name in
      (filt_str_list,
       do filt_df <- sorted_frame self data_2d filt_str_list plot_col ;
       condense filt_df plot_col graph_kind max_entries)
  end.

(** A line of text with its line feed. *)
Definition ln (s : string) : string := String.append s nl.

(* ================================================================== *)
(** * The script: from the report to the table *)
(* ================================================================== *)




(* ================================================================== *)
(** * Notions used to state the properties *)
(* ================================================================== *)

(** The records of a tree in traversal order, each with the keys that
    lead to the dictionary holding it. *)
Fixpoint leaves_node (val : node) : list (list string * one_power_group) :=
  match val with
  | Group g => [([], g)]
  | Dict items =>
      (fix leaves_items (l : list (string * node))
         : list (list string * one_power_group) :=
         match l with
         | [] => []
         | (key, v) :: l' =>
             match v with
             | Dict _ => map (fun pg => (key :: fst pg, snd pg))
                             (leaves_node v)
             | Group _ => leaves_node v
             end ++ leaves_items l'
         end) items
  end.

Definition leaves (d : dict) : list (list string * one_power_group) :=
  leaves_node (Dict d).

(** The deepest path of a list of leaves. *)
Definition deepest (ls : list (list string * one_power_group)) : nat :=
  fold_right Nat.max 0%nat (map (fun pg => List.length (fst pg)) ls).

(** The value stored under a path of keys. *)
Fixpoint lookup (d : dict) (path : list string) : option node :=
  match path with
  | [] => Some (Dict d)
  | key :: path' =>
      match dict_get d key with
      | Some (Dict child) => lookup child path'
      | Some (Group g) =>
          match path' with
          | [] => Some (Group g)
          | _ :: _ => None
          end
      | None => None
      end
  end.

Definition is_group (o : option node) : Prop :=
  exists g, o = Some (Group g).

Definition is_dict (o : option node) : Prop :=
  exists items, o = Some (Dict items).

(** [sub] occurs in [s]. *)
Definition occurs_in (sub s : string) : Prop :=
  exists pre post, s = (pre ++ sub ++ post)%string.

(** Literal text as a sequence of pattern items. *)
Definition lit (cs : list ascii) : list Re.item :=
  map (fun c => Re.Chr (Re.is_char c) Re.One) cs.

(** The text of the top-block marker and the pattern it compiles to. *)
Definition top_block : string := "<top block>".

Definition marker_regex : Re.regex :=
  [Re.Chr (Re.is_char "^") Re.Star :: lit (list_ascii_of_string top_block)].

(** [pat] is found in [line]. *)
Definition found (pat line : string) : bool :=
  match Re.search pat line with
  | Some (Some _) => true
  | _ => false
  end.

(** The lines read while seeking: those before the first line with
    'Hierarchy'. *)
Fixpoint seeking_lines (logfile : list string) : list string :=
  match logfile with
  | [] => []
  | line :: rest =>
      if found "Hierarchy" line then [] else line :: seeking_lines rest
  end.

(** The format in force after the seeking lines [pre], from format
    [fmt]. *)
Definition latched (fmt : format) (pre : list string) : format :=
  if existsb (found "Glitch|X-tran") pre then Prime_Power else fmt.

(** The reader in the body of the report. *)
Definition in_body (st : reader) : reader :=
  mk_reader (self st) true (hier_list st) (prev_level st) (stdout st).

(** The reader with the format set. *)
Definition with_format (st : reader) (fmt : format) : reader :=
  mk_reader (set_format (self st) fmt) (look_for_power_nums st)
            (hier_list st) (prev_level st) (stdout st).

(** The reader at the start of [read_logfile]. *)
Definition start (self : power_hierarchy) : reader :=
  mk_reader self false [] (-1) [].

(** Every record of the tree satisfies [Q]. *)
Definition all_groups (Q : one_power_group -> Prop) (d : dict) : Prop :=
  Forall (fun pg => Q (snd pg)) (leaves d).

(** The reader after the seeking lines [pre]: a line with a
    'Glitch' or 'X-tran' marker sets the format. *)
Definition seek (st : reader) (pre : list string) : reader :=
  fold_left (fun s line =>
               if found "Glitch|X-tran" line
               then with_format s Prime_Power else s)
            pre st.

(** The tree of the hierarchy A -> {B, C -> {D}} with the power groups
    of its four records. *)
Definition abcd_tree (gA gB gC gD : one_power_group) : dict :=
  [("A", Dict [("A", Group gA);
               ("B", Dict [("B", Group gB)]);
               ("C", Dict [("C", Group gC);
                           ("D", Dict [("D", Group gD)])])])].

(** The row of [iterate_data] for a leaf: the keys and the fields. *)
Definition row_of (pg : list string * one_power_group) : list cell :=
  map CStr (fst pg) ++ get_data (snd pg).

(** The label and the fields of the row of a leaf. *)
Definition dot_row (pg : list string * one_power_group) : list cell :=
  CStr (String.concat "." (fst pg)) :: get_data (snd pg).

(** [p] is an initial part of [l]. *)
Definition prefix_of (p l : list string) : Prop := exists q, l = p ++ q.

(** The two facts that make an insertion safe.  A record named [x]
    under the path [p ++ [x]] is stored under the key [x] once more,
    so no dictionary lies at a path that ends in a repeated name
    ([no_twin_dict]), and the record of every position of the path
    stack is in the tree ([stack_recorded]). *)
Definition no_twin_dict (d : dict) : Prop :=
  forall p x, ~ is_dict (lookup d (p ++ [x; x])).

Definition stack_recorded (d : dict) (hier_list : list string) : Prop :=
  forall p x, prefix_of (p ++ [x]) hier_list ->
              is_group (lookup d (p ++ [x; x])).

(** The readers that [read_logfile] goes through, from the object
    [self0]: in a first call, and in a later call on the object as an
    earlier one left it. *)
Inductive reachable (self0 : power_hierarchy) : reader -> Prop :=
| reach_start : reachable self0 (start self0)
| reach_again st :
    reachable self0 st -> reachable self0 (start (self st))
| reach_hierarchy st :
    reachable self0 st -> reachable self0 (in_body st)
| reach_marker st :
    reachable self0 st -> look_for_power_nums st = false ->
    reachable self0 (with_format st Prime_Power)
| reach_body st line_no line st' :
    reachable self0 st -> look_for_power_nums st = true ->
    body_line st line_no line = Ok st' -> reachable self0 st'.

(** The groups converted by [float] before the depth test. *)
Definition early_groups (fmt : format) : list nat :=
  match fmt with
  | Power_Compiler => [4; 5; 7; 8]%nat
  | Prime_Power => [4; 5; 7; 8; 9; 10]%nat
  end.

(** In the words of the specification: the pattern begins with the
    top-level marker, that is with [<top block>] after any number of
    [^]. *)
Fixpoint strip_carets (s : string) : string :=
  match s with
  | String c s' => if Ascii.eqb c "^" then strip_carets s' else s
  | EmptyString => s
  end.

Definition begins_with_marker (filt : string) : bool :=
  String.prefix top_block (strip_carets filt).

(** The pattern that ["B$"] is rewritten to. *)
Definition anchored_B : Re.regex :=
  [Re.Bol :: lit (list_ascii_of_string "<top block>.B") ++ [Re.Eol]].

(** The filter [filt] matches the label of no row of [data_2d]. *)
Definition unmatched (data_2d : list (list cell)) (filt : string) : Prop :=
  forall entry label,
    In entry data_2d -> entry_label entry = Ok label ->
    found filt label = false.

(** Row [b] is not placed before row [a] by the descending order on
    column [j]. *)
Definition not_before (j : nat) (a b : string * list cell) : Prop :=
  Pd.before (Pd.value j b) (Pd.value j a) = false.

(** The row 'Other' made of the rows [cut]. *)
Definition other_row (cols : list string) (cut : list (string * list cell))
  : string * list cell :=
  ("Other",
   Pd.set_item cols (Pd.sum cols cut) "Module Type Name" (CStr "Other")).

(** A word: a non-empty string of word characters, as [\w+] matches. *)
Definition is_word_string (s : string) : bool :=
  negb (String.eqb s EmptyString) && forallb Re.is_word (list_ascii_of_string s).

Definition word (s : string) : Prop := is_word_string s = true.

(** The items both record patterns begin with: a group of blanks, then
    a group of one or more word characters, the instance name. *)
Definition record_head : list Re.item :=
  [Re.GroupOpen; Re.Chr Re.is_space Re.Star; Re.GroupClose;
   Re.GroupOpen; Re.Chr Re.is_word Re.Plus; Re.GroupClose].

(** The shape of the trees that [read_logfile] builds: the keys of a
    dictionary are distinct words, and a power group lies under its
    own name, in the dictionary that this name leads to.  [own] is the
    key that leads to the dictionary, if there is one. *)
Inductive well_keyed : option string -> dict -> Prop :=
| well_keyed_intro own d :
    NoDup (map fst d) ->
    (forall key v, In (key, v) d -> word key) ->
    (forall key g, In (key, Group g) d -> own = Some key) ->
    (forall key child, In (key, Dict child) d ->
                       well_keyed (Some key) child) ->
    well_keyed own d.

(** A record of the format with every number of its fields read. *)
Definition complete (fmt : format) (g : one_power_group) : Prop :=
  logfile_format g = fmt /\
  (fmt = Prime_Power -> glitch_power g <> None /\ x_tran_power g <> None).

(** The filter loop keeps an entry when its label matches a filter. *)
Definition keeps (filt_str_list : list string) (entry : list cell) : bool :=
  match entry_label entry with
  | Ok label =>
      match first_match filt_str_list label with
      | Ok (Some _) => true
      | _ => false
      end
  | Raise _ => false
  end.

(** The row of a frame for a leaf. *)
Definition frame_row (pg : list string * one_power_group)
  : string * list cell :=
  (String.concat "." (fst pg), get_data (snd pg)).

(** The frame [filt_df] whose length is compared with [max_entries]. *)
Definition filtered_frame (self : power_hierarchy) (top_name : list string)
           (plot_col : string) : result DataFrame :=
  do data_2d <- dot_notated_rows self ;
  sorted_frame self data_2d (map anchor top_name) plot_col.

(** The plot column holds numbers, or it is the column of type names
    and holds strings. *)
Definition uniform_column (df : DataFrame) (plot_col : string) : Prop :=
  forall j,
    Pd.index_of plot_col (columns df) = Some j ->
    (plot_col <> "Module Type Name" /\
     Forall (fun r => Pd.is_str (Pd.value j r) = false) (rows df)) \/
    (plot_col = "Module Type Name" /\
     Forall (fun r => Pd.is_num (Pd.value j r) = false) (rows df)).

(** ** Sample reports *)

(** A Power Compiler report of the hierarchy A -> {B, C -> {D}}. *)
Definition sample_preamble : list string :=
  [ln "Report : power -hierarchy"; ln "Design : A"].

Definition sample_body : list string :=
  [ln "A                         1.0 2.0 3.0 6.0 100.0";
   ln "  B (tb)                  0.5 1.0 1.5e-01 3.0 50.0";
   ln "  C (tc)                  0.5 1.0 1.5 3.0 50.0";
   ln "    D (td)                0.25 0.5 0.75 1.5 25.0"].

Definition sample_report : list string :=
  sample_preamble
  ++ ln "Hierarchy                 Switch Int Leak Total %"
  :: ln "------------------------------"
  :: sample_body.

(** The object after [read_logfile] of the sample report, and after
    [get_2d_hierarchy_data] as well. *)
Definition sample_parsed : power_hierarchy :=
  Eval vm_compute in
    match read_logfile (init false None false) sample_report with
    | Parsed st => self st
    | Failed _ _ _ => init false None false
    end.

Definition sample_flattened : power_hierarchy :=
  Eval vm_compute in fst (get_2d_hierarchy_data sample_parsed).

(** The reader in the body of a report after the record of A. *)
Definition reader_after_A : reader :=
  Eval vm_compute in
    match body_line (in_body (start (init false None false))) 2
                    (ln "A                         1.0 2.0 3.0 6.0 100.0")
    with
    | Ok st => st
    | Raise _ => start (init false None false)
    end.

(** A power group for a second record named A. *)
Definition sample_group : one_power_group :=
  mk_power_group Power_Compiler "A" "ta" 1 2 3 6 100 None None.

(** A Prime Power report: a line with 'Glitch' comes before the
    'Hierarchy' line. *)
Definition prime_power_report : list string :=
  [ln "Report : Averaged Power";
   ln "                       Int Switch Leak Peak Peak Glitch X-tran Total";
   ln "Hierarchy              Power Power Power Power Time Power Power Power %";
   ln "------------------------------";
   ln "A                      1.0e-03 2.0e-03 3.0e-06 4.0e-02 0.0-1.0 1.0e-05 0.00 3.0e-03 100.0";
   ln "  B (tb)               5.0e-04 1.0e-03 1.5e-06 2.0e-02 0.0-1.0 5.0e-06 0.00 1.5e-03 50.0"].

(** The object after [read_logfile] of the Prime Power report, and the
    object that has read the sample report and then the Prime Power
    report. *)
Definition prime_parsed : power_hierarchy :=
  Eval vm_compute in
    match read_logfile (init false None false) prime_power_report with
    | Parsed st => self st
    | Failed _ _ _ => init false None false
    end.

Definition both_parsed : power_hierarchy :=
  Eval vm_compute in
    match read_logfile sample_parsed prime_power_report with
    | Parsed st => self st
    | Failed _ _ _ => init false None false
    end.

(** A body line that has the shape of a record but a field that is
    not a number, and one whose first number ends in a bare [e]. *)
Definition malformed_report : list string :=
  [ln "Hierarchy                 Switch Int Leak Total %";
   ln "------------------------------";
   ln "  B (tb)                  0.5 1.0 N/A 3.0 50.0";
   ln "  C (tc)                  0.5 1.0 1.5 3.0 50.0"].

Definition bare_exponent_line : string :=
  ln "  B (tb)                  0.5e 1.0 1.5 3.0 50.0".

(** A report with the top instance A and 25 instances below it, whose
    percentages are 1.0 to 25.0. *)
Definition report25 : list string :=
  [ln "Hierarchy                 Switch Int Leak Total %";
   ln "------------------------------";
   ln "A                         2.5 5.0 7.5 15.0 100.0";
   ln "  u01 (t01)               0.1 0.2 0.3 0.6 1.0";
   ln "  u02 (t02)               0.1 0.2 0.3 0.6 2.0";
   ln "  u03 (t03)               0.1 0.2 0.3 0.6 3.0";
   ln "  u04 (t04)               0.1 0.2 0.3 0.6 4.0";
   ln "  u05 (t05)               0.1 0.2 0.3 0.6 5.0";
   ln "  u06 (t06)               0.1 0.2 0.3 0.6 6.0";
   ln "  u07 (t07)               0.1 0.2 0.3 0.6 7.0";
   ln "  u08 (t08)               0.1 0.2 0.3 0.6 8.0";
   ln "  u09 (t09)               0.1 0.2 0.3 0.6 9.0";
   ln "  u10 (t10)               0.1 0.2 0.3 0.6 10.0";
   ln "  u11 (t11)               0.1 0.2 0.3 0.6 11.0";
   ln "  u12 (t12)               0.1 0.2 0.3 0.6 12.0";
   ln "  u13 (t13)               0.1 0.2 0.3 0.6 13.0";
   ln "  u14 (t14)               0.1 0.2 0.3 0.6 14.0";
   ln "  u15 (t15)               0.1 0.2 0.3 0.6 15.0";
   ln "  u16 (t16)               0.1 0.2 0.3 0.6 16.0";
   ln "  u17 (t17)               0.1 0.2 0.3 0.6 17.0";
   ln "  u18 (t18)               0.1 0.2 0.3 0.6 18.0";
   ln "  u19 (t19)               0.1 0.2 0.3 0.6 19.0";
   ln "  u20 (t20)               0.1 0.2 0.3 0.6 20.0";
   ln "  u21 (t21)               0.1 0.2 0.3 0.6 21.0";
   ln "  u22 (t22)               0.1 0.2 0.3 0.6 22.0";
   ln "  u23 (t23)               0.1 0.2 0.3 0.6 23.0";
   ln "  u24 (t24)               0.1 0.2 0.3 0.6 24.0";
   ln "  u25 (t25)               0.1 0.2 0.3 0.6 25.0"].

Definition reader25 : reader :=
  Eval vm_compute in
    match read_logfile (init false None false) report25 with
    | Parsed st => st
    | Failed _ _ _ => start (init false None false)
    end.

Definition hierarchy25 : power_hierarchy :=
  Eval vm_compute in fst (get_2d_hierarchy_data (self reader25)).

(** A filter for the instances one level below A.  It names the top
    block in a second alternative, so it is left as it is. *)
Definition below_A : string := "^A\.\w+$|<top block>".

(** The sorted frame of the instances below A. *)
Definition frame25 : DataFrame :=
  Eval vm_compute in
    match filtered_frame hierarchy25 [below_A] "Pct of Total Power" with
    | Ok df => df
    | Raise _ => mk_frame [] []
    end.

(* ================================================================== *)
(** * Basic facts *)
(* ================================================================== *)

(** Induction on a tree and on the values of its dictionaries. *)
Section node_induction.
Variable P : node -> Prop.
Hypothesis P_group : forall g, P (Group g).
Hypothesis P_dict :
  forall items, Forall (fun kv => P (snd kv)) items -> P (Dict items).

Fixpoint node_induction (n : node) : P n :=
  match n with
  | Group g => P_group g
  | Dict items =>
      P_dict items
        ((fix all (l : list (string * node))
            : Forall (fun kv => P (snd kv)) l :=
            match l with
            | [] => Forall_nil _
            | kv :: l' => Forall_cons kv (node_induction (snd kv)) (all l')
            end) items)
  end.
End node_induction.

Lemma iterate_data_nil : iterate_data [] = [].
Proof. reflexivity. Qed.

Lemma iterate_data_cons key v d :
  iterate_data ((key, v) :: d) =
  match v with
  | Dict child => map (cons (CStr key)) (iterate_data child)
  | Group g => [get_data g]
  end ++ iterate_data d.
Proof. destruct v; reflexivity. Qed.


Lemma leaves_cons key v d :
  leaves ((key, v) :: d) =
  match v with
  | Dict child => map (fun pg => (key :: fst pg, snd pg)) (leaves child)
  | Group g => [([], g)]
  end ++ leaves d.
Proof. destruct v; reflexivity. Qed.

(** Every row of [iterate_data] is the path and the data of one leaf. *)
Lemma iterate_node_leaves (v : node) :
  iterate_node v = map row_of (leaves_node v).
Proof.
  induction v as [g | items IH] using node_induction.
  - reflexivity.
  - change (iterate_data items = map row_of (leaves items)).
    induction items as [| [key v] items IHitems].
    + reflexivity.
    + rewrite iterate_data_cons, leaves_cons, map_app.
      inversion IH as [| ? ? Hv Hrest]; subst.
      rewrite (IHitems Hrest). f_equal.
      destruct v as [child | g].
      * cbn [snd] in Hv. unfold iterate_data, leaves.
        rewrite Hv, !map_map. reflexivity.
      * reflexivity.
Qed.

Lemma iterate_data_leaves (d : dict) :
  iterate_data d = map row_of (leaves d).
Proof. apply iterate_node_leaves. Qed.

(** ** Lengths and padding *)

Lemma get_data_length g :
  List.length (get_data g) = List.length (get_header (logfile_format g)).
Proof. unfold get_data. destruct (logfile_format g); reflexivity. Qed.

Lemma insert_at_length {A} (l v : list A) i :
  List.length (Py.insert_at l i v) = (List.length l + List.length v)%nat.
Proof.
  unfold Py.insert_at.
  rewrite !length_app, length_firstn, length_skipn. lia.
Qed.

Lemma max_list_bound xs m :
  Py.max_list xs = Ok m -> Forall (fun x => (x <= m)%nat) xs.
Proof.
  destruct xs as [| x xs]; [discriminate |].
  simpl. intros H. injection H as <-.
  assert (G : forall l a, (a <= fold_left Nat.max l a)%nat /\
                          Forall (fun y => (y <= fold_left Nat.max l a)%nat) l).
  { induction l as [| y l IH]; intros a; simpl.
    - split; [lia | constructor].
    - destruct (IH (Nat.max a y)) as [H1 H2]. split; [lia |].
      constructor; [lia | exact H2]. }
  destruct (G xs x). constructor; assumption.
Qed.

Lemma max_list_fold xs :
  xs <> [] -> Py.max_list xs = Ok (fold_right Nat.max 0%nat xs).
Proof.
  destruct xs as [| x xs]; [congruence | intros _].
  simpl. f_equal.
  revert x. induction xs as [| y xs IH]; intros x; simpl.
  - lia.
  - rewrite IH. lia.
Qed.

Lemma slice_index_neg len c :
  (0 < c)%nat -> Py.slice_index len (- Z.of_nat c) = (len - c)%nat.
Proof.
  intros Hc. unfold Py.slice_index.
  destruct (Z.ltb_spec (- Z.of_nat c) 0); lia.
Qed.

Lemma get_header_length_pos fmt : (0 < List.length (get_header fmt))%nat.
Proof. destruct fmt; simpl; lia. Qed.

Lemma pad_entry_row count m p g :
  List.length (get_data g) = count -> (0 < count)%nat ->
  pad_entry count m (map CStr p ++ get_data g) =
  map CStr p ++ repeat CNone (m - (List.length p + count)) ++ get_data g.
Proof.
  intros Hc Hpos. unfold pad_entry, Py.insert_at.
  rewrite (slice_index_neg _ _ Hpos), length_app, length_map, Hc.
  replace (List.length p + count - count)%nat with (List.length (map CStr p) + 0)%nat
    by (rewrite length_map; lia).
  rewrite firstn_app_2, skipn_app, firstn_O, app_nil_r.
  rewrite Nat.add_0_r, skipn_all. simpl.
  replace (List.length (map CStr p) - List.length (map CStr p))%nat with 0%nat by lia.
  reflexivity.
Qed.

Lemma deepest_bound ls pg :
  In pg ls -> (List.length (fst pg) <= deepest ls)%nat.
Proof.
  unfold deepest. induction ls as [| a ls IH]; simpl; [tauto |].
  intros [-> | H]; [lia | specialize (IH H); lia].
Qed.

Lemma deepest_attained ls :
  ls <> [] -> exists pg, In pg ls /\ List.length (fst pg) = deepest ls.
Proof.
  unfold deepest. induction ls as [| a ls IH]; [congruence | intros _].
  destruct ls as [| b ls].
  - exists a. simpl. split; [auto | lia].
  - destruct IH as [pg [Hin Hlen]]; [discriminate |].
    simpl in *.
    destruct (Nat.le_ge_cases (List.length (fst a))
                (Nat.max (List.length (fst b))
                   (fold_right Nat.max 0%nat
                      (map (fun pg => List.length (fst pg)) ls)))).
    + exists pg. split; [tauto | lia].
    + exists a. split; [auto | lia].
Qed.

Lemma fold_max_map_add {A} (f : A -> nat) c (l : list A) :
  l <> [] ->
  fold_right Nat.max 0%nat (map (fun x => (f x + c)%nat) l) =
  (fold_right Nat.max 0%nat (map f l) + c)%nat.
Proof.
  induction l as [| a l IH]; [congruence | intros _].
  destruct l as [| b l].
  - simpl. lia.
  - specialize (IH ltac:(discriminate)). simpl in *. lia.
Qed.

(** ** Strings as lists of characters *)

Lemma list_ascii_app (a b : string) :
  list_ascii_of_string (a ++ b)%string =
  list_ascii_of_string a ++ list_ascii_of_string b.
Proof. induction a as [| c a IH]; simpl; [reflexivity | now rewrite IH]. Qed.

Lemma string_of_list_app (a b : list ascii) :
  string_of_list_ascii (a ++ b) =
  (string_of_list_ascii a ++ string_of_list_ascii b)%string.
Proof. induction a as [| c a IH]; simpl; [reflexivity | now rewrite IH]. Qed.

Lemma occurs_in_list sub s :
  occurs_in sub s <->
  exists pre post,
    list_ascii_of_string s = pre ++ list_ascii_of_string sub ++ post.
Proof.
  split.
  - intros [pre [post ->]].
    exists (list_ascii_of_string pre), (list_ascii_of_string post).
    now rewrite !list_ascii_app.
  - intros [pre [post H]].
    exists (string_of_list_ascii pre), (string_of_list_ascii post).
    rewrite <- (string_of_list_ascii_of_string s), H.
    rewrite !string_of_list_app, string_of_list_ascii_of_string. reflexivity.
Qed.

(** ** The matcher on literal text and on repetitions *)


Lemma is_char_eq c a : Re.is_char c a = true <-> a = c.
Proof.
  unfold Re.is_char. rewrite Ascii.eqb_eq. split; congruence.
Qed.

(** Literal text matches exactly itself. *)
Lemma match_here_lit cs p s pos opened caps r :
  Re.match_here (lit cs ++ p) s pos opened caps = Some r <->
  exists s', s = cs ++ s' /\
             Re.match_here p s' (pos + List.length cs) opened caps = Some r.
Proof.
  revert s pos. induction cs as [| c cs IH]; intros s pos; simpl.
  - rewrite Nat.add_0_r. split.
    + intros H. now exists s.
    + intros [s' [-> H]]. exact H.
  - destruct s as [| a s].
    + split; [discriminate | intros [s' [E _]]; discriminate].
    + destruct (Re.is_char c a) eqn:E.
      * apply is_char_eq in E. subst a. rewrite IH.
        replace (S pos + List.length cs)%nat with (pos + S (List.length cs))%nat
          by lia.
        split; intros [s' [E H]]; exists s'; split; congruence.
      * split; [discriminate |].
        intros [s' [E' _]]. injection E' as -> _.
        unfold Re.is_char in E. now rewrite Ascii.eqb_refl in E.
Qed.

(** A successful repetition took some characters of the class and
    handed the rest to the continuation. *)
Lemma greedy_some {R} c (k : list ascii -> nat -> option R) s pos r :
  Re.greedy c k s pos = Some r ->
  exists taken rest,
    s = taken ++ rest /\ forallb c taken = true /\
    k rest (pos + List.length taken)%nat = Some r.
Proof.
  revert pos. induction s as [| a s IH]; intros pos; simpl.
  - intros H. exists [], []. simpl. rewrite Nat.add_0_r. auto.
  - destruct (c a) eqn:Ea.
    + destruct (Re.greedy c k s (S pos)) eqn:Eg.
      * intros H. injection H as ->.
        destruct (IH _ Eg) as [taken [rest [-> [Hall Hk]]]].
        exists (a :: taken), rest. simpl. rewrite Ea, Hall.
        replace (pos + S (List.length taken))%nat
          with (S pos + List.length taken)%nat by lia. auto.
      * intros H. exists [], (a :: s). simpl. rewrite Nat.add_0_r. auto.
    + intros H. exists [], (a :: s). simpl. rewrite Nat.add_0_r. auto.
Qed.

(** A repetition succeeds as soon as the continuation does without
    it. *)
Lemma greedy_skip {R} c (k : list ascii -> nat -> option R) s pos r :
  k s pos = Some r -> exists r', Re.greedy c k s pos = Some r'.
Proof.
  intros H. destruct s as [| a s]; simpl.
  - eauto.
  - destruct (c a); [| eauto].
    destruct (Re.greedy c k s (S pos)); eauto.
Qed.

(** The search finds nothing exactly when no offset matches. *)
Lemma search_from_none r s pos :
  Re.search_from r s pos = None <->
  forall k, (k <= List.length s)%nat ->
            Re.match_alts r (skipn k s) (pos + k) = None.
Proof.
  revert pos. induction s as [| a s IH]; intros pos; simpl.
  - destruct (Re.match_alts r [] pos) as [[e caps] |] eqn:E.
    + split; [discriminate |]. intros H.
      specialize (H 0%nat (Nat.le_refl _)). simpl in H.
      rewrite Nat.add_0_r in H. congruence.
    + split; [| reflexivity]. intros _ k Hk.
      assert (k = 0%nat) by lia. subst. simpl. now rewrite Nat.add_0_r.
  - destruct (Re.match_alts r (a :: s) pos) as [[e caps] |] eqn:E.
    + split; [discriminate |]. intros H.
      specialize (H 0%nat (Nat.le_0_l _)). simpl in H.
      rewrite Nat.add_0_r in H. congruence.
    + rewrite IH. split.
      * intros H [| k] Hk.
        -- simpl. now rewrite Nat.add_0_r.
        -- simpl. replace (pos + S k)%nat with (S pos + k)%nat by lia.
           apply H. lia.
      * intros H k Hk. specialize (H (S k)). simpl in H.
        replace (S pos + k)%nat with (pos + S k)%nat by lia. apply H. lia.
Qed.

Lemma search_from_some r s pos m :
  Re.search_from r s pos = Some m ->
  exists k, (k <= List.length s)%nat /\
            Re.m_start m = (pos + k)%nat /\
            Re.match_alts r (skipn k s) (pos + k)
            = Some (Re.m_end m, Re.m_spans m).
Proof.
  revert pos. induction s as [| a s IH]; intros pos; simpl.
  - destruct (Re.match_alts r [] pos) as [[e caps] |] eqn:E; [| discriminate].
    intros H. injection H as <-. exists 0%nat. simpl.
    rewrite Nat.add_0_r. auto.
  - destruct (Re.match_alts r (a :: s) pos) as [[e caps] |] eqn:E.
    + intros H. injection H as <-. exists 0%nat. simpl.
      rewrite Nat.add_0_r. split; [lia | auto].
    + intros H. destruct (IH _ H) as [k [Hk [Hs Hm]]].
      exists (S k). simpl.
      replace (pos + S k)%nat with (S pos + k)%nat by lia.
      split; [lia | auto].
Qed.

Lemma match_alts_single p s pos :
  Re.match_alts [p] s pos = Re.match_here p s pos [] [].
Proof. simpl. now destruct (Re.match_here p s pos [] []). Qed.

Lemma match_here_star c p s pos opened caps :
  Re.match_here (Re.Chr c Re.Star :: p) s pos opened caps =
  Re.greedy c (fun s1 pos1 => Re.match_here p s1 pos1 opened caps) s pos.
Proof. reflexivity. Qed.

(** ** The top-block marker *)



Lemma compile_marker : Re.compile top_block_marker = Some marker_regex.
Proof. reflexivity. Qed.

(** The marker is found exactly in the strings that contain the text
    [<top block>] somewhere. *)
Lemma marker_found (filt : string) :
  (exists m, Re.search top_block_marker filt = Some (Some m)) <->
  occurs_in top_block filt.
Proof.
  unfold Re.search. rewrite compile_marker. unfold Re.search_regex.
  rewrite occurs_in_list. split.
  - intros [m H]. injection H as H.
    apply search_from_some in H. destruct H as [k [Hk [_ H]]].
    unfold marker_regex in H.
    rewrite match_alts_single, match_here_star in H.
    apply greedy_some in H. destruct H as [taken [rest [E1 [_ E2]]]].
    rewrite <- (app_nil_r (lit _)) in E2.
    apply match_here_lit in E2. destruct E2 as [s' [-> _]].
    exists (firstn k (list_ascii_of_string filt) ++ taken), s'.
    rewrite <- (firstn_skipn k (list_ascii_of_string filt)) at 1.
    rewrite E1, <- app_assoc. reflexivity.
  - intros [pre [post H]].
    destruct (Re.search_from marker_regex (list_ascii_of_string filt) 0)
      as [m |] eqn:E; [eauto |].
    exfalso. rewrite search_from_none in E.
    specialize (E (List.length pre)).
    rewrite H, length_app in E. specialize (E ltac:(lia)).
    rewrite skipn_app, skipn_all, Nat.sub_diag in E.
    cbn [skipn app] in E. unfold marker_regex in E.
    rewrite match_alts_single, match_here_star in E.
    assert (G : exists r, Re.match_here (lit (list_ascii_of_string top_block))
               (list_ascii_of_string top_block ++ post)
               (0 + List.length pre) [] [] = Some r).
    { eexists. rewrite <- (app_nil_r (lit _)). apply match_here_lit.
      exists post. split; reflexivity. }
    destruct G as [r G].
    destruct (greedy_skip (Re.is_char "^")
                (fun s1 pos1 => Re.match_here (lit (list_ascii_of_string top_block))
                                  s1 pos1 [] []) _ _ _ G) as [r' G'].
    congruence.
Qed.

Lemma anchor_spec (filt : string) :
  (occurs_in top_block filt -> anchor filt = filt) /\
  (~ occurs_in top_block filt -> anchor filt = (top_block_prefix ++ filt)%string).
Proof.
  unfold anchor. split.
  - intros H. apply marker_found in H. destruct H as [m ->]. reflexivity.
  - intros H.
    destruct (Re.search top_block_marker filt) as [[m |] |] eqn:E; try reflexivity.
    exfalso. apply H. apply marker_found. eauto.
Qed.

(** ** The loop of read_logfile *)

Lemma search_found pat line :
  Re.compile pat <> None ->
  exists m, search pat line = Ok m /\
            found pat line = match m with Some _ => true | None => false end.
Proof.
  intros H. unfold search, found, Re.search.
  destruct (Re.compile pat); [| congruence].
  eexists. split; [reflexivity |].
  destruct (Re.search_regex r line); reflexivity.
Qed.

Lemma compile_hierarchy : Re.compile "Hierarchy" <> None.
Proof. discriminate. Qed.

Lemma compile_glitch : Re.compile "Glitch|X-tran" <> None.
Proof. discriminate. Qed.

Lemma read_lines_cons st line_no line rest :
  read_lines st line_no (line :: rest) =
  if negb (look_for_power_nums st) then
    match search "Hierarchy" line with
    | Raise e => Failed e line_no line
    | Ok (Some _) =>
        match rest with
        | [] => Failed StopIteration line_no line
        | _ :: rest' => read_lines (in_body st) (S line_no) rest'
        end
    | Ok None =>
        match search "Glitch|X-tran" line with
        | Raise e => Failed e line_no line
        | Ok (Some _) =>
            read_lines (mk_reader (set_format (self st) Prime_Power)
                                  false (hier_list st) (prev_level st)
                                  (stdout st))
                       (S line_no) rest
        | Ok None => read_lines st (S line_no) rest
        end
    end
  else
    match body_line st line_no line with
    | Ok st' => read_lines st' (S line_no) rest
    | Raise e => Failed e line_no line
    end.
Proof. reflexivity. Qed.

Lemma read_lines_body st line_no line rest :
  look_for_power_nums st = true ->
  read_lines st line_no (line :: rest) =
  match body_line st line_no line with
  | Ok st' => read_lines st' (S line_no) rest
  | Raise e => Failed e line_no line
  end.
Proof. intros H. rewrite read_lines_cons, H. reflexivity. Qed.

Lemma read_lines_hierarchy st line_no line skipped rest :
  look_for_power_nums st = false ->
  found "Hierarchy" line = true ->
  read_lines st line_no (line :: skipped :: rest) =
  read_lines (in_body st) (S line_no) rest.
Proof.
  intros H F. rewrite read_lines_cons, H. cbn [negb].
  destruct (search_found "Hierarchy" line compile_hierarchy) as [m [E Fm]].
  rewrite E. rewrite F in Fm. destruct m; [reflexivity | discriminate].
Qed.

Lemma read_lines_hierarchy_last st line_no line :
  look_for_power_nums st = false ->
  found "Hierarchy" line = true ->
  read_lines st line_no [line] = Failed StopIteration line_no line.
Proof.
  intros H F. rewrite read_lines_cons, H. cbn [negb].
  destruct (search_found "Hierarchy" line compile_hierarchy) as [m [E Fm]].
  rewrite E. rewrite F in Fm. destruct m; [reflexivity | discriminate].
Qed.

Lemma read_lines_seek st line_no line rest :
  look_for_power_nums st = false ->
  found "Hierarchy" line = false ->
  read_lines st line_no (line :: rest) =
  read_lines (if found "Glitch|X-tran" line
              then with_format st Prime_Power else st)
             (S line_no) rest.
Proof.
  intros H F. rewrite read_lines_cons, H. cbn [negb].
  destruct (search_found "Hierarchy" line compile_hierarchy) as [m [E Fm]].
  rewrite E. rewrite F in Fm. destruct m; [discriminate |].
  destruct (search_found "Glitch|X-tran" line compile_glitch) as [m' [E' Fm']].
  rewrite E', Fm'. unfold with_format. rewrite H.
  destruct m'; reflexivity.
Qed.

(** What a body line leaves unchanged. *)
Lemma accept_frame st level name obj st' :
  accept st level name obj = Ok st' ->
  look_for_power_nums st' = look_for_power_nums st /\
  self_format (self st') = self_format (self st) /\
  power_num_count (self st') = power_num_count (self st) /\
  verbose (self st') = verbose (self st) /\
  max_depth (self st') = max_depth (self st) /\
  path_combine (self st') = path_combine (self st) /\
  stdout st' = stdout st.
Proof.
  unfold accept. intros H.
  destruct (update_hier_list _ _ _ _) as [hl |]; [| discriminate].
  cbn [bind] in H.
  destruct (insert_group _ _ _ _) as [d |]; [| discriminate].
  injection H as <-. repeat split.
Qed.

Lemma body_line_frame st line_no line st' :
  body_line st line_no line = Ok st' ->
  look_for_power_nums st' = look_for_power_nums st /\
  self_format (self st') = self_format (self st) /\
  power_num_count (self st') = power_num_count (self st) /\
  verbose (self st') = verbose (self st) /\
  max_depth (self st') = max_depth (self st) /\
  path_combine (self st') = path_combine (self st).
Proof.
  unfold body_line. intros H.
  destruct (parse_record _ _ _) as [[| | level name obj] |]; cbn [bind] in H;
    try discriminate.
  - injection H as <-.
    destruct (verbose (self st)) eqn:V; cbn; rewrite ?V; repeat split.
  - injection H as <-. repeat split.
  - apply accept_frame in H. tauto.
Qed.

(** An invariant of the reader that the seeking steps and the body
    lines keep is kept by the whole loop. *)
Lemma read_lines_invariant (P : reader -> Prop) :
  (forall st, P st -> P (in_body st)) ->
  (forall st, look_for_power_nums st = false -> P st ->
              P (with_format st Prime_Power)) ->
  (forall st line_no line st',
      look_for_power_nums st = true -> P st ->
      body_line st line_no line = Ok st' -> P st') ->
  forall lines st line_no st',
    P st -> read_lines st line_no lines = Parsed st' -> P st'.
Proof.
  intros Hbody Hfmt Hline lines.
  assert (G : forall k lines, (List.length lines <= k)%nat ->
              forall st line_no st',
                P st -> read_lines st line_no lines = Parsed st' -> P st').
  { induction k as [| k IH]; intros ls Hk st n st' HP Hr.
    - destruct ls; [| simpl in Hk; lia]. simpl in Hr. congruence.
    - destruct ls as [| line rest]; [simpl in Hr; congruence |].
      simpl in Hk.
      destruct (look_for_power_nums st) eqn:L.
      + rewrite (read_lines_body _ _ _ _ L) in Hr.
        destruct (body_line st n line) as [st1 |] eqn:B; [| discriminate].
        apply (IH rest ltac:(lia) st1 (S n)); [| exact Hr]. eauto.
      + destruct (found "Hierarchy" line) eqn:F.
        * destruct rest as [| skipped rest].
          -- rewrite (read_lines_hierarchy_last _ _ _ L F) in Hr. discriminate.
          -- rewrite (read_lines_hierarchy _ _ _ _ _ L F) in Hr.
             apply (IH rest ltac:(simpl in Hk; lia) (in_body st) (S n));
               [| exact Hr]. auto.
        * rewrite (read_lines_seek _ _ _ _ L F) in Hr.
          destruct (found "Glitch|X-tran" line).
          -- apply (IH rest ltac:(lia) (with_format st Prime_Power) (S n) st');
               [auto | exact Hr].
          -- apply (IH rest ltac:(lia) st (S n) st'); [auto | exact Hr]. }
  intros st n st'. apply (G (List.length lines)). lia.
Qed.

(** Once in the body the loop stays there and keeps the format. *)
Lemma read_lines_body_format lines st line_no st' :
  look_for_power_nums st = true ->
  read_lines st line_no lines = Parsed st' ->
  look_for_power_nums st' = true /\
  self_format (self st') = self_format (self st).
Proof.
  intros L H.
  apply (read_lines_invariant
           (fun s => look_for_power_nums s = true /\
                     self_format (self s) = self_format (self st))
           ltac:(intros s [? ?]; split; [reflexivity | assumption])
           ltac:(intros s E [E' _]; congruence)
           ltac:(intros s n l s' _ [? ?] B; apply body_line_frame in B;
                 destruct B as [-> [-> _]]; auto)
           lines st line_no st'); auto.
Qed.

(** The seeking lines decide the format. *)
Lemma read_lines_seeking_format :
  forall lines st line_no st',
    look_for_power_nums st = false ->
    read_lines st line_no lines = Parsed st' ->
    self_format (self st') =
    latched (self_format (self st)) (seeking_lines lines).
Proof.
  assert (G : forall k lines, (List.length lines <= k)%nat ->
            forall st line_no st',
              look_for_power_nums st = false ->
              read_lines st line_no lines = Parsed st' ->
              self_format (self st') =
              latched (self_format (self st)) (seeking_lines lines)).
  { induction k as [| k IH]; intros ls Hk st n st' L Hr.
    - destruct ls; [| simpl in Hk; lia]. simpl in Hr.
      injection Hr as <-. reflexivity.
    - destruct ls as [| line rest];
        [simpl in Hr; injection Hr as <-; reflexivity |].
      simpl in Hk. cbn [seeking_lines].
      destruct (found "Hierarchy" line) eqn:F.
      + destruct rest as [| skipped rest].
        * rewrite (read_lines_hierarchy_last _ _ _ L F) in Hr. discriminate.
        * rewrite (read_lines_hierarchy _ _ _ _ _ L F) in Hr.
          apply read_lines_body_format in Hr; [| reflexivity].
          destruct Hr as [_ ->]. reflexivity.
      + rewrite (read_lines_seek _ _ _ _ L F) in Hr.
        unfold latched. cbn [existsb].
        destruct (found "Glitch|X-tran" line) eqn:Gl.
        * apply IH in Hr; [| lia | exact L]. rewrite Hr.
          unfold latched. cbn. now destruct (existsb _ _).
        * apply IH in Hr; [| lia | exact L]. exact Hr. }
  intros lines st n st'. apply (G (List.length lines)). lia.
Qed.

(** ** Records of a tree under insertion *)

Lemma all_groups_nil Q : all_groups Q [].
Proof. constructor. Qed.

Lemma all_groups_cons Q key v d :
  all_groups Q ((key, v) :: d) <->
  match v with
  | Dict child => all_groups Q child
  | Group g => Q g
  end /\ all_groups Q d.
Proof.
  unfold all_groups. rewrite leaves_cons, Forall_app.
  destruct v as [child | g].
  - rewrite Forall_map. cbn [snd]. reflexivity.
  - split.
    + intros [H1 H2]. inversion H1; subst. auto.
    + intros [H1 H2]. split; [repeat constructor; exact H1 | exact H2].
Qed.

Lemma all_groups_get Q d key child :
  all_groups Q d -> dict_get d key = Some (Dict child) -> all_groups Q child.
Proof.
  induction d as [| [k v] d IH]; simpl; [discriminate |].
  rewrite all_groups_cons. intros [Hv Hd].
  destruct (String.eqb k key).
  - intros E. injection E as ->. exact Hv.
  - auto.
Qed.

Lemma all_groups_set Q d key v :
  all_groups Q d ->
  match v with
  | Dict child => all_groups Q child
  | Group g => Q g
  end ->
  all_groups Q (dict_set d key v).
Proof.
  intros Hd Hv. induction d as [| [k w] d IH]; simpl.
  - apply all_groups_cons. split; [exact Hv | apply all_groups_nil].
  - apply all_groups_cons in Hd. destruct Hd as [Hw Hd].
    destruct (String.eqb k key); apply all_groups_cons; auto.
Qed.

Lemma all_groups_insert Q hl name obj :
  forall d d',
    all_groups Q d -> Q obj ->
    insert_group hl name obj d = Ok d' -> all_groups Q d'.
Proof.
  induction hl as [| h t IH]; intros d d' Hd Hobj; simpl.
  - intros E. injection E as <-. now apply all_groups_set.
  - destruct (dict_get d h) as [[child | g] |] eqn:G.
    + destruct (insert_group t name obj child) as [child' |] eqn:E;
        [| discriminate].
      cbn [bind]. intros E'. injection E' as <-.
      apply all_groups_set; [exact Hd |].
      apply (IH child child'); auto. eapply all_groups_get; eauto.
    + destruct t; discriminate.
    + destruct (insert_group t name obj []) as [child' |] eqn:E;
        [| discriminate].
      cbn [bind]. intros E'. injection E' as <-.
      apply all_groups_set; [exact Hd |].
      apply (IH [] child'); auto. apply all_groups_nil.
Qed.

Lemma parse_record_format fmt md line level name obj :
  parse_record fmt md line = Ok (Record_at level name obj) ->
  logfile_format obj = fmt.
Proof.
  unfold parse_record.
  destruct (search _ _) as [[m |] |]; cbn [bind]; try discriminate.
  destruct (early_floats _ _) as [[[[[[sw ip] tp] pc] gp] xp] |];
    cbn [bind]; [| discriminate].
  destruct (too_deep _ _); [discriminate |].
  destruct (Py.float _); cbn [bind]; [| discriminate].
  intros E. injection E as _ _ <-. reflexivity.
Qed.

Lemma accept_data st level name obj st' :
  accept st level name obj = Ok st' ->
  exists hl,
    update_hier_list (hier_list st) (prev_level st) level name = Ok hl /\
    insert_group hl name obj (data (self st)) = Ok (data (self st')) /\
    hier_list st' = hl /\ prev_level st' = level.
Proof.
  unfold accept. intros H.
  destruct (update_hier_list _ _ _ _) as [hl |]; [| discriminate].
  cbn [bind] in H.
  destruct (insert_group _ _ _ _) as [d |] eqn:E; [| discriminate].
  injection H as <-. exists hl. cbn. auto.
Qed.

(** What a body line does to the data: nothing, or one [accept]. *)
Lemma body_line_cases st line_no line st' :
  body_line st line_no line = Ok st' ->
  (data (self st') = data (self st) /\ hier_list st' = hier_list st /\
   prev_level st' = prev_level st) \/
  exists level name obj,
    parse_record (self_format (self st)) (max_depth (self st)) line
    = Ok (Record_at level name obj) /\
    accept st level name obj = Ok st'.
Proof.
  unfold body_line. intros H.
  destruct (parse_record _ _ _) as [[| | level name obj] |]; cbn [bind] in H;
    try discriminate.
  - left. injection H as <-. destruct (verbose (self st)); cbn; auto.
  - left. injection H as <-. auto.
  - right. eauto.
Qed.

(** Every record stored by the loop carries the format of the
    object. *)
Lemma read_lines_groups_format lines st line_no st' :
  all_groups (fun g => logfile_format g = self_format (self st))
             (data (self st)) ->
  (look_for_power_nums st = false -> data (self st) = []) ->
  read_lines st line_no lines = Parsed st' ->
  all_groups (fun g => logfile_format g = self_format (self st'))
             (data (self st')).
Proof.
  intros H1 H2 Hr.
  apply (read_lines_invariant
           (fun s => all_groups
                       (fun g => logfile_format g = self_format (self s))
                       (data (self s)) /\
                     (look_for_power_nums s = false -> data (self s) = [])))
    with (lines := lines) (st := st) (line_no := line_no) (st' := st');
    auto.
  - intros s [A B]. split; [exact A | discriminate].
  - intros s L [A B]. cbn. rewrite (B L). split; [constructor | auto].
  - intros s n l s' L [A B] Hb. split.
    + pose proof (body_line_frame _ _ _ _ Hb) as [_ [F _]]. rewrite F.
      destruct (body_line_cases _ _ _ _ Hb)
        as [[-> _] | [level [name [obj [Hp Ha]]]]]; [exact A |].
      destruct (accept_data _ _ _ _ _ Ha) as [hl [_ [Hi _]]].
      eapply all_groups_insert; [exact A | | exact Hi].
      eapply parse_record_format; eauto.
    + pose proof (body_line_frame _ _ _ _ Hb) as [E _]. congruence.
Qed.

(** The full flatten of a tree with at least one leaf: the rows, their
    length and the place of the padding. *)
Lemma flatten_padded (hier : power_hierarchy) :
  path_combine hier = false ->
  leaves (data hier) <> [] ->
  exists flat,
    snd (get_2d_hierarchy_data hier) = Ok flat /\
    List.length flat = List.length (leaves (data hier)) /\
    (exists width, Forall (fun r => List.length r = width) flat) /\
    (Forall (fun pg => logfile_format (snd pg) = self_format hier)
            (leaves (data hier)) ->
     let depth := deepest (leaves (data hier)) in
     let count := List.length (get_header (self_format hier)) in
     flat = map (fun pg => map CStr (fst pg)
                           ++ repeat CNone (depth - List.length (fst pg))
                           ++ get_data (snd pg))
                (leaves (data hier)) /\
     Forall (fun r => List.length r = (depth + count)%nat) flat).
Proof.
  intros Hpc Hne.
  unfold get_2d_hierarchy_data. cbn [snd data set_power_num_count path_combine].
  rewrite Hpc, iterate_data_leaves.
  set (ls := leaves (data hier)) in *.
  set (count := List.length (get_header (self_format hier))).
  assert (Hrows : map (@List.length cell) (map row_of ls) <> []).
  { destruct ls; [congruence | discriminate]. }
  rewrite (max_list_fold _ Hrows). cbn [bind].
  set (m := fold_right Nat.max 0%nat (map (@List.length cell) (map row_of ls))).
  exists (map (pad_entry count m) (map row_of ls)).
  split; [reflexivity |]. split; [now rewrite !length_map |]. split.
  - exists m. apply Forall_forall. intros r Hr.
    apply in_map_iff in Hr. destruct Hr as [e [<- He]].
    unfold pad_entry. rewrite insert_at_length, repeat_length.
    assert (List.length e <= m)%nat; [| lia].
    pose proof (max_list_bound _ _ (max_list_fold _ Hrows)) as Hb.
    rewrite Forall_forall in Hb. apply Hb. now apply in_map.
  - intros Hfmt. cbv zeta.
    assert (Hlen : forall pg, In pg ls -> List.length (get_data (snd pg)) = count).
    { intros pg Hin. rewrite Forall_forall in Hfmt.
      rewrite get_data_length, (Hfmt pg Hin). reflexivity. }
    assert (Hm : m = (deepest ls + count)%nat).
    { unfold m, deepest. rewrite map_map.
      rewrite <- fold_max_map_add by (intro E; apply Hne; exact E).
      f_equal. apply map_ext_in. intros pg Hin.
      unfold row_of. rewrite length_app, length_map, (Hlen pg Hin). reflexivity. }
    assert (Hflat : map (pad_entry count m) (map row_of ls) =
                    map (fun pg => map CStr (fst pg)
                           ++ repeat CNone (deepest ls - List.length (fst pg))
                           ++ get_data (snd pg)) ls).
    { rewrite map_map. apply map_ext_in. intros pg Hin.
      unfold row_of. rewrite (pad_entry_row count m _ _ (Hlen pg Hin)
                 (get_header_length_pos _)).
      do 2 f_equal. rewrite Hm. f_equal. lia. }
    split; [exact Hflat |].
    rewrite Hflat. apply Forall_forall. intros r Hr.
    apply in_map_iff in Hr. destruct Hr as [pg [<- Hin]].
    rewrite !length_app, length_map, repeat_length, (Hlen pg Hin).
    pose proof (deepest_bound ls pg Hin). lia.
Qed.

(** C7, as amended.  For every tree with at least one leaf, the full
    flatten (without path-combine) returns exactly one row per leaf in
    traversal order, and all rows have the same length.  When every
    record of the tree carries the format of the object, that length
    is the deepest path plus the number of fields of the format, and
    the row of a leaf is its path, then the [None] padding, then its
    fields: the padding stands immediately before the power fields.
    The tree that [read_logfile] builds on a new object is such a
    tree.  Nothing is stated about the place of the padding in a tree
    with a record of another format than the object's. *)
Theorem full_flatten_rows (hier : power_hierarchy) :
  path_combine hier = false ->
  leaves (data hier) <> [] ->
  (forall verbose max_depth path_combine logfile st,
      read_logfile (init verbose max_depth path_combine) logfile = Parsed st ->
      data hier = data (self st) ->
      self_format hier = self_format (self st) ->
      Forall (fun pg => logfile_format (snd pg) = self_format hier)
             (leaves (data hier))) /\
  exists flat,
    snd (get_2d_hierarchy_data hier) = Ok flat /\
    List.length flat = List.length (leaves (data hier)) /\
    (exists width, Forall (fun r => List.length r = width) flat) /\
    (Forall (fun pg => logfile_format (snd pg) = self_format hier)
            (leaves (data hier)) ->
     let depth := deepest (leaves (data hier)) in
     let count := List.length (get_header (self_format hier)) in
     flat = map (fun pg => map CStr (fst pg)
                           ++ repeat CNone (depth - List.length (fst pg))
                           ++ get_data (snd pg))
                (leaves (data hier)) /\
     Forall (fun r => List.length r = (depth + count)%nat) flat).
Proof.
  intros Hpc Hne. split.
  { intros v md pc logfile st Hr -> ->. unfold read_logfile in Hr.
    apply read_lines_groups_format in Hr;
      [exact Hr | constructor | reflexivity]. }
  now apply flatten_padded.
Qed.

(** The records of the tree after the loop are those of the tree
    before it, which satisfy [Q], and records of the format of the
    object. *)
Lemma read_lines_groups_kept (Q : one_power_group -> Prop)
      lines st line_no st' :
  all_groups Q (data (self st)) ->
  look_for_power_nums st = false ->
  read_lines st line_no lines = Parsed st' ->
  all_groups (fun g => Q g \/ logfile_format g = self_format (self st'))
             (data (self st')).
Proof.
  intros H1 H2 Hr.
  apply (read_lines_invariant
           (fun s => all_groups
                       (fun g => Q g \/
                                 logfile_format g = self_format (self s))
                       (data (self s)) /\
                     (look_for_power_nums s = false ->
                      all_groups Q (data (self s)))))
    with (lines := lines) (st := st) (line_no := line_no) (st' := st').
  - intros s [A B]. split; [exact A | discriminate].
  - intros s L [A B]. cbn. split; [| intros _; exact (B L)].
    eapply Forall_impl; [| exact (B L)]. intros pg HQ. now left.
  - intros s n l s' L [A B] Hb. split.
    + pose proof (body_line_frame _ _ _ _ Hb) as [_ [F _]]. rewrite F.
      destruct (body_line_cases _ _ _ _ Hb)
        as [[-> _] | [level [name [obj [Hp Ha]]]]]; [exact A |].
      destruct (accept_data _ _ _ _ _ Ha) as [hl [_ [Hi _]]].
      eapply all_groups_insert; [exact A | | exact Hi].
      right. eapply parse_record_format; eauto.
    + pose proof (body_line_frame _ _ _ _ Hb) as [E _]. congruence.
  - split; [| intros _; exact H1].
    eapply Forall_impl; [| exact H1]. intros pg HQ. now left.
  - exact Hr.
Qed.

(** C5, as amended.  A new object has the format Power Compiler, and
    [read_logfile] never sets the format back: on every object, after
    [read_logfile] the format is Prime Power exactly when the object
    had that format before the call or one of the lines read while
    seeking, before the first 'Hierarchy' line, has a 'Glitch' or
    'X-tran' marker.  Every record of the tree is a record of the tree
    before the call or carries that one format, so on an object whose
    tree was empty every record carries it; and from the moment the
    loop is in the body of the report the format does not change. *)
Theorem dialect_latched (self0 : power_hierarchy) logfile st :
  read_logfile self0 logfile = Parsed st ->
  (forall verbose max_depth path_combine,
      self_format (init verbose max_depth path_combine) = Power_Compiler) /\
  self_format (self st) = latched (self_format self0) (seeking_lines logfile) /\
  (self_format (self st) = Prime_Power <->
   self_format self0 = Prime_Power \/
   existsb (found "Glitch|X-tran") (seeking_lines logfile) = true) /\
  (forall Q : one_power_group -> Prop,
      all_groups Q (data self0) ->
      all_groups (fun g => Q g \/ logfile_format g = self_format (self st))
                 (data (self st))) /\
  (data self0 = [] ->
   Forall (fun pg => logfile_format (snd pg) = self_format (self st))
          (leaves (data (self st)))) /\
  (forall lines st1 line_no st2,
      look_for_power_nums st1 = true ->
      read_lines st1 line_no lines = Parsed st2 ->
      look_for_power_nums st2 = true /\
      self_format (self st2) = self_format (self st1)).
Proof.
  unfold read_logfile. intros H.
  assert (Hf : self_format (self st)
               = latched (self_format self0) (seeking_lines logfile)).
  { apply read_lines_seeking_format in H; [exact H | reflexivity]. }
  split; [reflexivity |]. split; [exact Hf |]. split; [| split; [| split]].
  - rewrite Hf. unfold latched.
    destruct (existsb _ _); [split; auto |].
    split; [now left | intros [E | E]; [exact E | discriminate]].
  - intros Q HQ.
    apply (read_lines_groups_kept Q) in H; [exact H | exact HQ | reflexivity].
  - intros E.
    apply (read_lines_groups_kept (fun _ => False)) in H;
      [| cbn; rewrite E; constructor | reflexivity].
    eapply Forall_impl; [| exact H]. cbn. intros pg [[] | Hg]. exact Hg.
  - intros lines st1 n st2. apply read_lines_body_format.
Qed.

(** ** The seeking lines *)

Lemma seek_frame pre : forall st,
  look_for_power_nums (seek st pre) = look_for_power_nums st /\
  data (self (seek st pre)) = data (self st) /\
  hier_list (seek st pre) = hier_list st /\
  prev_level (seek st pre) = prev_level st /\
  stdout (seek st pre) = stdout st /\
  max_depth (self (seek st pre)) = max_depth (self st) /\
  verbose (self (seek st pre)) = verbose (self st) /\
  power_num_count (self (seek st pre)) = power_num_count (self st) /\
  path_combine (self (seek st pre)) = path_combine (self st) /\
  self_format (self (seek st pre)) = latched (self_format (self st)) pre.
Proof.
  induction pre as [| line pre IH]; intros st.
  - repeat split.
  - unfold seek. cbn [fold_left]. fold (seek (if found "Glitch|X-tran" line
                                     then with_format st Prime_Power else st) pre).
    unfold latched. cbn [existsb].
    destruct (found "Glitch|X-tran" line).
    + destruct (IH (with_format st Prime_Power))
        as (-> & -> & -> & -> & -> & -> & -> & -> & -> & ->).
      cbn. unfold latched. destruct (existsb _ pre); repeat split.
    + apply IH.
Qed.

Lemma read_lines_preamble pre : forall st line_no rest,
  look_for_power_nums st = false ->
  Forall (fun line => found "Hierarchy" line = false) pre ->
  read_lines st line_no (pre ++ rest) =
  read_lines (seek st pre) (line_no + List.length pre) rest.
Proof.
  induction pre as [| line pre IH]; intros st n rest L H.
  - simpl. now rewrite Nat.add_0_r.
  - inversion H as [| ? ? F Hpre]; subst.
    rewrite <- app_comm_cons, (read_lines_seek _ _ _ _ L F).
    rewrite IH; [| destruct (found "Glitch|X-tran" line); exact L | exact Hpre].
    cbn [List.length]. replace (n + S (List.length pre))%nat
      with (S n + List.length pre)%nat by lia.
    reflexivity.
Qed.

(** ** The path stack *)

Lemma update_hier_list_push hl prev level name :
  (prev < level)%Z ->
  update_hier_list hl prev level name = Ok (hl ++ [name]).
Proof.
  intros H. unfold update_hier_list.
  destruct (Z.gtb_spec level prev); [| lia]. cbn [bind].
  unfold set_last. destruct (hl ++ [name]) eqn:E.
  - now destruct hl.
  - rewrite <- E, removelast_last. reflexivity.
Qed.

Lemma update_hier_list_same hl prev level name :
  level = prev -> hl <> [] ->
  update_hier_list hl prev level name = Ok (removelast hl ++ [name]).
Proof.
  intros -> H. unfold update_hier_list.
  destruct (Z.gtb_spec prev prev); [lia |].
  destruct (Z.ltb_spec prev prev); [lia |]. cbn [bind].
  unfold set_last. destruct hl; [congruence | reflexivity].
Qed.

Lemma update_hier_list_pop hl prev level name :
  (level < prev)%Z ->
  (Z.to_nat (prev - level) < List.length hl)%nat ->
  update_hier_list hl prev level name =
  Ok (firstn (List.length hl - Z.to_nat (prev - level) - 1) hl ++ [name]).
Proof.
  intros H Hk. unfold update_hier_list.
  destruct (Z.gtb_spec level prev); [lia |].
  destruct (Z.ltb_spec level prev); [| lia].
  unfold pop_levels.
  destruct (Nat.ltb_spec (List.length hl) (Z.to_nat (prev - level))); [lia |].
  cbn [bind]. set (k := Z.to_nat (prev - level)) in *.
  unfold set_last.
  destruct (firstn (List.length hl - k) hl) eqn:E.
  - apply (f_equal (@List.length string)) in E.
    rewrite length_firstn in E. simpl in E. lia.
  - rewrite <- E. f_equal. f_equal.
    rewrite removelast_firstn_len, firstn_firstn, length_firstn.
    f_equal. lia.
Qed.

Lemma update_hier_list_underflow hl prev level name :
  (level < prev)%Z ->
  (List.length hl <= Z.to_nat (prev - level))%nat ->
  update_hier_list hl prev level name = Raise IndexError.
Proof.
  intros H Hk. unfold update_hier_list.
  destruct (Z.gtb_spec level prev); [lia |].
  destruct (Z.ltb_spec level prev); [| lia].
  unfold pop_levels.
  destruct (Nat.ltb_spec (List.length hl) (Z.to_nat (prev - level)));
    [reflexivity |].
  cbn [bind]. assert (E : List.length hl = Z.to_nat (prev - level)) by lia.
  rewrite E, Nat.sub_diag. reflexivity.
Qed.

(** ** The hierarchy A -> {B, C -> {D}} *)

Lemma body_line_record st line_no line level name obj :
  parse_record (self_format (self st)) (max_depth (self st)) line
  = Ok (Record_at level name obj) ->
  body_line st line_no line = accept st level name obj.
Proof. unfold body_line. intros ->. reflexivity. Qed.

Lemma read_lines_abcd st line_no lA lB lC lD gA gB gC gD :
  look_for_power_nums st = true ->
  data (self st) = [] -> hier_list st = [] -> prev_level st = (-1)%Z ->
  let fmt := self_format (self st) in
  let md := max_depth (self st) in
  parse_record fmt md lA = Ok (Record_at 0 "A" gA) ->
  parse_record fmt md lB = Ok (Record_at 1 "B" gB) ->
  parse_record fmt md lC = Ok (Record_at 1 "C" gC) ->
  parse_record fmt md lD = Ok (Record_at 2 "D" gD) ->
  read_lines st line_no [lA; lB; lC; lD] =
  Parsed (mk_reader (set_data (self st) (abcd_tree gA gB gC gD)) true
                    ["A"; "C"; "D"] 2 (stdout st)).
Proof.
  intros L Hd Hh Hp fmt md HA HB HC HD.
  set (self1 := set_data (self st) [("A", Dict [("A", Group gA)])]).
  set (st1 := mk_reader self1 true ["A"] 0 (stdout st)).
  assert (E1 : accept st 0 "A" gA = Ok st1).
  { unfold accept. rewrite Hh, Hp, Hd, L. reflexivity. }
  set (st2 := mk_reader
                (set_data (self st)
                   [("A", Dict [("A", Group gA);
                                ("B", Dict [("B", Group gB)])])])
                true ["A"; "B"] 1 (stdout st)).
  assert (E2 : accept st1 1 "B" gB = Ok st2) by reflexivity.
  set (st3 := mk_reader
                (set_data (self st)
                   [("A", Dict [("A", Group gA);
                                ("B", Dict [("B", Group gB)]);
                                ("C", Dict [("C", Group gC)])])])
                true ["A"; "C"] 1 (stdout st)).
  assert (E3 : accept st2 1 "C" gC = Ok st3) by reflexivity.
  set (st4 := mk_reader (set_data (self st) (abcd_tree gA gB gC gD)) true
                        ["A"; "C"; "D"] 2 (stdout st)).
  assert (E4 : accept st3 2 "D" gD = Ok st4) by reflexivity.
  rewrite (read_lines_body st _ _ _ L), (body_line_record st _ _ _ _ _ HA), E1.
  rewrite (read_lines_body st1 _ _ _ eq_refl),
    (body_line_record st1 _ _ 1%Z "B" gB HB), E2.
  rewrite (read_lines_body st2 _ _ _ eq_refl),
    (body_line_record st2 _ _ 1%Z "C" gC HC), E3.
  rewrite (read_lines_body st3 _ _ _ eq_refl),
    (body_line_record st3 _ _ 2%Z "D" gD HD), E4.
  reflexivity.
Qed.

(** ** Rows in dot notation *)

Lemma join_strs sep (p : list string) :
  Py.join sep (map CStr p) = Ok (String.concat sep p).
Proof.
  induction p as [| s p IH]; [reflexivity |].
  destruct p as [| x p]; [reflexivity |].
  cbn [map] in *.
  change (Py.join sep (CStr s :: CStr x :: map CStr p))
    with (do r <- Py.join sep (CStr x :: map CStr p) ;
          Ok (s ++ sep ++ r)%string).
  rewrite IH. reflexivity.
Qed.

Lemma slice_index_nat len n :
  (n <= len)%nat -> Py.slice_index len (Z.of_nat n) = n.
Proof.
  intros H. unfold Py.slice_index.
  destruct (Z.ltb_spec (Z.of_nat n) 0); [lia |].
  rewrite Nat2Z.id. lia.
Qed.

Lemma combine_entry_row count pg :
  List.length (get_data (snd pg)) = count ->
  combine_entry count (row_of pg) =
  Ok (CStr (String.concat "." (fst pg)) :: get_data (snd pg)).
Proof.
  intros Hc. unfold combine_entry, row_of, Py.slice_to, Py.assign_slice_to.
  rewrite length_app, length_map, Hc.
  replace (Z.of_nat (List.length (fst pg) + count) - Z.of_nat count)%Z
    with (Z.of_nat (List.length (fst pg))) by lia.
  rewrite slice_index_nat by lia.
  replace (List.length (fst pg)) with (List.length (map CStr (fst pg)) + 0)%nat
    by (rewrite length_map; lia).
  rewrite firstn_app_2, firstn_O, app_nil_r, join_strs. cbn [bind].
  rewrite skipn_app, Nat.add_0_r, skipn_all, Nat.sub_diag. reflexivity.
Qed.

Lemma map_result_ok {A B} (f : A -> result B) (g : A -> B) l :
  (forall x, In x l -> f x = Ok (g x)) -> map_result f l = Ok (map g l).
Proof.
  induction l as [| x l IH]; intros H; [reflexivity |].
  cbn [map_result map]. rewrite (H x (or_introl eq_refl)). cbn [bind].
  rewrite IH by (intros y Hy; apply H; now right). reflexivity.
Qed.

Lemma dot_notated_rows_leaves self count :
  power_num_count self = Some count ->
  Forall (fun pg => List.length (get_data (snd pg)) = count)
         (leaves (data self)) ->
  dot_notated_rows self = Ok (map dot_row (leaves (data self))).
Proof.
  intros Hc Hl. unfold dot_notated_rows.
  rewrite Hc, iterate_data_leaves. rewrite Forall_forall in Hl.
  induction (leaves (data self)) as [| pg l IH]; [reflexivity |].
  cbn [map map_result]. unfold dot_notate at 1.
  rewrite combine_entry_row by (apply Hl; now left). cbn [bind].
  rewrite IH by (intros x Hx; apply Hl; now right). reflexivity.
Qed.

(** C6.  The path stack follows the rule: a deeper level pushes the
    instance name, a shallower level pops [prev_level - level] names,
    and in every case the last element becomes the instance name.
    For every report made of seeking lines, a 'Hierarchy' line, a
    separator and four lines that the format's pattern reads as the
    records A at level 0, B and C at level 1 and D at level 2,
    [read_logfile] builds the tree A -> {B, C -> {D}}: its leaves are
    reached by A, A.B, A.C and A.C.D, in that order. *)
Theorem hierarchy_round_trip verbose max_depth path_combine
        pre hline sep lA lB lC lD gA gB gC gD :
  Forall (fun line => found "Hierarchy" line = false) pre ->
  found "Hierarchy" hline = true ->
  let fmt := latched Power_Compiler pre in
  parse_record fmt max_depth lA = Ok (Record_at 0 "A" gA) ->
  parse_record fmt max_depth lB = Ok (Record_at 1 "B" gB) ->
  parse_record fmt max_depth lC = Ok (Record_at 1 "C" gC) ->
  parse_record fmt max_depth lD = Ok (Record_at 2 "D" gD) ->
  (forall hl prev level name,
      (prev < level)%Z ->
      update_hier_list hl prev level name = Ok (hl ++ [name])) /\
  (forall hl prev level name,
      (level < prev)%Z ->
      (Z.to_nat (prev - level) < List.length hl)%nat ->
      update_hier_list hl prev level name =
      Ok (firstn (List.length hl - Z.to_nat (prev - level) - 1) hl
          ++ [name])) /\
  (forall hl prev level name,
      level = prev -> hl <> [] ->
      update_hier_list hl prev level name = Ok (removelast hl ++ [name])) /\
  exists st,
    read_logfile (init verbose max_depth path_combine)
                 (pre ++ hline :: sep :: [lA; lB; lC; lD]) = Parsed st /\
    data (self st) = abcd_tree gA gB gC gD /\
    leaves (data (self st)) =
      [(["A"], gA); (["A"; "B"], gB); (["A"; "C"], gC);
       (["A"; "C"; "D"], gD)] /\
    dot_notated_rows (fst (get_2d_hierarchy_data (self st))) =
      Ok [CStr "A" :: get_data gA; CStr "A.B" :: get_data gB;
          CStr "A.C" :: get_data gC; CStr "A.C.D" :: get_data gD].
Proof.
  intros Hpre Hh fmt HA HB HC HD.
  split; [exact update_hier_list_push |].
  split; [exact update_hier_list_pop |].
  split; [exact update_hier_list_same |].
  set (st0 := start (init verbose max_depth path_combine)).
  destruct (seek_frame pre st0)
    as (L & Hd & Hl & Hp & Ho & Hm & Hv & Hn & Hc & Hf).
  eexists. split.
  - unfold read_logfile. fold st0.
    rewrite (read_lines_preamble pre st0 0 _ eq_refl Hpre).
    rewrite (read_lines_hierarchy _ _ _ _ _ L Hh).
    apply (read_lines_abcd (in_body (seek st0 pre)) _ lA lB lC lD gA gB gC gD);
      cbn [in_body look_for_power_nums self hier_list prev_level];
      try rewrite Hf; try rewrite Hm; auto.
  - cbn [self data set_data]. split; [reflexivity |].
    split; [reflexivity |].
    erewrite dot_notated_rows_leaves.
    + reflexivity.
    + reflexivity.
    + cbn [fst get_2d_hierarchy_data data set_power_num_count set_data
           in_body self self_format].
      rewrite Hf. fold fmt.
      repeat constructor; cbn [snd]; rewrite get_data_length;
        erewrite parse_record_format by eassumption; reflexivity.
Qed.

(** ** Dictionaries *)

Lemma dict_get_set_same {V} (d : list (string * V)) key v :
  dict_get (dict_set d key v) key = Some v.
Proof.
  induction d as [| [k w] d IH]; simpl.
  - now rewrite String.eqb_refl.
  - destruct (String.eqb k key) eqn:E; simpl; rewrite E; auto.
Qed.

Lemma dict_get_set_other {V} (d : list (string * V)) key key' v :
  key <> key' -> dict_get (dict_set d key v) key' = dict_get d key'.
Proof.
  intros N. induction d as [| [k w] d IH]; simpl.
  - destruct (String.eqb_spec key key'); [contradiction | reflexivity].
  - destruct (String.eqb_spec k key) as [-> | Hk]; simpl.
    + destruct (String.eqb_spec key key'); [contradiction | reflexivity].
    + now rewrite IH.
Qed.

(** ** Paths *)

Lemma prefix_of_nil l : prefix_of [] l.
Proof. now exists l. Qed.

Lemma prefix_of_cons x p l :
  prefix_of (x :: p) l <-> exists l', l = x :: l' /\ prefix_of p l'.
Proof.
  split.
  - intros [q ->]. exists (p ++ q). split; [reflexivity | now exists q].
  - intros [l' [-> [q ->]]]. now exists q.
Qed.

Lemma prefix_of_trans a b c : prefix_of a b -> prefix_of b c -> prefix_of a c.
Proof.
  intros [q ->] [r ->]. exists (q ++ r). now rewrite app_assoc.
Qed.

Lemma last_cases {A} (l : list A) :
  l = [] \/ exists l' z, l = l' ++ [z].
Proof. induction l using rev_ind; [now left | right; eauto]. Qed.

Lemma prefix_of_snoc a b y :
  prefix_of a (b ++ [y]) -> a = b ++ [y] \/ prefix_of a b.
Proof.
  intros [q H]. destruct (last_cases q) as [-> | [q' [z ->]]].
  - left. now rewrite app_nil_r in H.
  - right. rewrite app_assoc in H. apply app_inj_tail in H.
    destruct H as [-> _]. now exists q'.
Qed.

Lemma prefix_of_firstn n (l : list string) : prefix_of (firstn n l) l.
Proof. exists (skipn n l). now rewrite firstn_skipn. Qed.

Lemma prefix_of_removelast (l : list string) : prefix_of (removelast l) l.
Proof.
  destruct (last_cases l) as [-> | [l' [z ->]]].
  - apply prefix_of_nil.
  - rewrite removelast_last. now exists [z].
Qed.

(** The stack after a record is an initial part of the old stack
    followed by the name of the record. *)
Lemma update_hier_list_shape hl prev level name hl' :
  update_hier_list hl prev level name = Ok hl' ->
  exists base, hl' = base ++ [name] /\ prefix_of base hl.
Proof.
  unfold update_hier_list.
  destruct (level >? prev)%Z.
  - cbn [bind]. unfold set_last.
    destruct (hl ++ [name]) eqn:E; [discriminate |]. rewrite <- E.
    rewrite removelast_last. intros H. injection H as <-.
    exists hl. split; [reflexivity | exists []; now rewrite app_nil_r].
  - assert (G : forall h, prefix_of h hl -> set_last h name = Ok hl' ->
                          exists base, hl' = base ++ [name] /\ prefix_of base hl).
    { intros h Hh. unfold set_last. destruct h as [| a h]; [discriminate |].
      intros H. injection H as <-.
      exists (removelast (a :: h)). split; [reflexivity |].
      eapply prefix_of_trans; [apply prefix_of_removelast | exact Hh]. }
    destruct (level <? prev)%Z.
    + unfold pop_levels. destruct (_ <? _)%nat; [discriminate |].
      cbn [bind]. apply G. apply prefix_of_firstn.
    + cbn [bind]. apply G. exists []. now rewrite app_nil_r.
Qed.

(** ** lookup under insert_group *)

Lemma lookup_nil p : p <> [] -> lookup [] p = None.
Proof. destruct p; [congruence | reflexivity]. Qed.

Lemma lookup_cons_dict d key child p :
  dict_get d key = Some (Dict child) ->
  lookup d (key :: p) = lookup child p.
Proof. intros H. simpl. now rewrite H. Qed.

(** A successful insertion met no power group on its way. *)
Lemma insert_group_no_group hl name obj : forall d d' p,
  insert_group hl name obj d = Ok d' ->
  p <> [] -> prefix_of p hl -> ~ is_group (lookup d p).
Proof.
  induction hl as [| h t IH]; intros d d' p H Hp Hpre.
  - destruct Hpre as [q Hq]. destruct p; [congruence | discriminate].
  - destruct p as [| k p]; [congruence |].
    apply prefix_of_cons in Hpre. destruct Hpre as [l' [E Hpre]].
    injection E as <- <-. simpl in H. simpl.
    destruct (dict_get d h) as [[child | g] |] eqn:G.
    + destruct (insert_group t name obj child) as [child' |] eqn:E;
        [| discriminate].
      destruct p as [| k' p].
      * intros [g' Hg]. discriminate.
      * eapply IH; eauto. discriminate.
    + destruct t; discriminate.
    + intros [g' Hg]. discriminate.
Qed.

(** Walking into a power group raises. *)
Lemma insert_group_raises hl name obj d e :
  insert_group hl name obj d = Raise e -> e = TypeError \/ e = AttributeError.
Proof.
  revert d. induction hl as [| h t IH]; intros d; simpl; [discriminate |].
  destruct (dict_get d h) as [[child | g] |].
  - destruct (insert_group t name obj child) eqn:E; cbn [bind];
      [discriminate |]. intros H. injection H as <-. eauto.
  - destruct t; intros H; injection H as <-; auto.
  - destruct (insert_group t name obj []) eqn:E; cbn [bind];
      [discriminate |]. intros H. injection H as <-. eauto.
Qed.

Lemma insert_group_through_group hl name obj d p :
  p <> [] -> prefix_of p hl -> is_group (lookup d p) ->
  exists e, insert_group hl name obj d = Raise e /\
            (e = TypeError \/ e = AttributeError).
Proof.
  intros Hp Hpre Hg.
  destruct (insert_group hl name obj d) as [d' |] eqn:E.
  - exfalso. eapply insert_group_no_group; eauto.
  - eexists. split; [reflexivity |]. eapply insert_group_raises; eauto.
Qed.

(** The stored power group is found under the stack and its own
    name. *)
Lemma lookup_inserted hl name obj : forall d d',
  insert_group hl name obj d = Ok d' ->
  lookup d' (hl ++ [name]) = Some (Group obj).
Proof.
  induction hl as [| h t IH]; intros d d'; simpl.
  - intros H. injection H as <-. now rewrite dict_get_set_same.
  - destruct (dict_get d h) as [[child | g] |] eqn:G.
    + destruct (insert_group t name obj child) as [child' |] eqn:E;
        [| discriminate].
      cbn [bind]. intros H. injection H as <-.
      rewrite dict_get_set_same. eauto.
    + destruct t; discriminate.
    + destruct (insert_group t name obj []) as [child' |] eqn:E;
        [| discriminate].
      cbn [bind]. intros H. injection H as <-.
      rewrite dict_get_set_same. eauto.
Qed.

(** A dictionary of the new tree was there before or lies on the
    stack. *)
Lemma lookup_dict_origin hl name obj : forall d d' p,
  insert_group hl name obj d = Ok d' ->
  is_dict (lookup d' p) -> is_dict (lookup d p) \/ prefix_of p hl.
Proof.
  induction hl as [| h t IH]; intros d d' p H Hd.
  - destruct p as [| k p]; [right; apply prefix_of_nil |].
    left. simpl in H. injection H as <-. simpl in *.
    destruct (String.eqb_spec name k) as [-> | N].
    + rewrite dict_get_set_same in Hd.
      destruct p; destruct Hd as [items Hd]; discriminate.
    + now rewrite dict_get_set_other in Hd.
  - destruct p as [| k p]; [right; apply prefix_of_nil |].
    simpl in H.
    destruct (String.eqb_spec h k) as [-> | N].
    + destruct (dict_get d k) as [[child | g] |] eqn:G.
      * destruct (insert_group t name obj child) as [child' |] eqn:E;
          [| discriminate].
        cbn [bind] in H. injection H as <-.
        rewrite (lookup_cons_dict _ _ child') in Hd
          by apply dict_get_set_same.
        rewrite (lookup_cons_dict _ _ child) by exact G.
        destruct (IH _ _ _ E Hd) as [Hl | Hr]; [now left | right].
        apply prefix_of_cons. eauto.
      * destruct t; discriminate.
      * destruct (insert_group t name obj []) as [child' |] eqn:E;
          [| discriminate].
        cbn [bind] in H. injection H as <-.
        rewrite (lookup_cons_dict _ _ child') in Hd
          by apply dict_get_set_same.
        destruct (IH _ _ _ E Hd) as [Hl | Hr].
        -- right. destruct p as [| k' p]; [| destruct Hl; discriminate].
           apply prefix_of_cons. exists t. split; [reflexivity |].
           apply prefix_of_nil.
        -- right. apply prefix_of_cons. eauto.
    + left.
      assert (E : dict_get d' k = dict_get d k).
      { destruct (dict_get d h) as [[child | g] |].
        - destruct (insert_group t name obj child); [| discriminate].
          cbn [bind] in H. injection H as <-.
          now apply dict_get_set_other.
        - destruct t; discriminate.
        - destruct (insert_group t name obj []); [| discriminate].
          cbn [bind] in H. injection H as <-.
          now apply dict_get_set_other. }
      simpl in *. now rewrite E in Hd.
Qed.

(** An insertion whose target is not a dictionary keeps the kind of
    every value of the tree. *)
Lemma lookup_kind_kept hl name obj : forall d d' p,
  insert_group hl name obj d = Ok d' ->
  ~ is_dict (lookup d (hl ++ [name])) ->
  (is_group (lookup d p) -> is_group (lookup d' p)) /\
  (is_dict (lookup d p) -> is_dict (lookup d' p)).
Proof.
  induction hl as [| h t IH]; intros d d' p H Ht.
  - simpl in H. injection H as <-.
    destruct p as [| k p]; [split; [intros [g Hg]; discriminate
                                   | intros _; eexists; reflexivity] |].
    simpl in *.
    destruct (String.eqb_spec name k) as [-> | N].
    + rewrite dict_get_set_same.
      destruct (dict_get d k) as [[child | g] |].
      * exfalso. apply Ht. eexists. reflexivity.
      * destruct p.
        -- split; [intros _; eexists; reflexivity
                  | intros [items Hi]; discriminate].
        -- split; [intros [g' Hg] | intros [items Hi]]; discriminate.
      * split; [intros [g' Hg] | intros [items Hi]]; discriminate.
    + rewrite dict_get_set_other by exact N. tauto.
  - destruct p as [| k p]; [split; [intros [g Hg]; discriminate
                                   | intros _; eexists; reflexivity] |].
    simpl in H.
    destruct (String.eqb_spec h k) as [-> | N].
    + destruct (dict_get d k) as [[child | g] |] eqn:G.
      * destruct (insert_group t name obj child) as [child' |] eqn:E;
          [| discriminate].
        cbn [bind] in H. injection H as <-.
        rewrite (lookup_cons_dict (dict_set d k (Dict child')) _ child')
          by apply dict_get_set_same.
        rewrite (lookup_cons_dict d _ child) by exact G.
        apply IH; [exact E |].
        rewrite <- app_comm_cons, (lookup_cons_dict d _ child) in Ht
          by exact G.
        exact Ht.
      * destruct t; discriminate.
      * simpl. rewrite G.
        split; [intros [g' Hg] | intros [items Hi]]; discriminate.
    + assert (E : dict_get d' k = dict_get d k).
      { destruct (dict_get d h) as [[child | g] |].
        - destruct (insert_group t name obj child); [| discriminate].
          cbn [bind] in H. injection H as <-.
          now apply dict_get_set_other.
        - destruct t; discriminate.
        - destruct (insert_group t name obj []); [| discriminate].
          cbn [bind] in H. injection H as <-.
          now apply dict_get_set_other. }
      simpl. rewrite E. tauto.
Qed.

(** ** The invariant of the tree and the path stack *)

Lemma target_not_dict d hl prev level name hl' :
  no_twin_dict d ->
  update_hier_list hl prev level name = Ok hl' ->
  ~ is_dict (lookup d (hl' ++ [name])).
Proof.
  intros Hd H. apply update_hier_list_shape in H.
  destruct H as [base [-> _]]. rewrite <- app_assoc. apply Hd.
Qed.

Lemma insert_keeps_invariant d hl prev level name obj hl' d' :
  no_twin_dict d -> stack_recorded d hl ->
  update_hier_list hl prev level name = Ok hl' ->
  insert_group hl' name obj d = Ok d' ->
  no_twin_dict d' /\ stack_recorded d' hl'.
Proof.
  intros Hd Hs Hu Hi.
  pose proof (target_not_dict _ _ _ _ _ _ Hd Hu) as Ht.
  destruct (update_hier_list_shape _ _ _ _ _ Hu) as [base [E Hbase]].
  split.
  - intros p x Hdict.
    destruct (lookup_dict_origin _ _ _ _ _ _ Hi Hdict) as [Hold | Hpre].
    + exact (Hd p x Hold).
    + apply (insert_group_no_group _ _ _ _ _ (p ++ [x; x]) Hi);
        [now destruct p | exact Hpre |].
      apply Hs. subst hl'.
      replace (p ++ [x; x]) with ((p ++ [x]) ++ [x]) in Hpre
        by now rewrite <- app_assoc.
      apply prefix_of_snoc in Hpre. destruct Hpre as [Heq | Hpre].
      * apply app_inj_tail in Heq. destruct Heq as [-> _]. exact Hbase.
      * eapply prefix_of_trans; [| exact Hbase].
        destruct Hpre as [q ->]. exists ([x] ++ q).
        now rewrite <- !app_assoc.
  - intros p x Hpre. rewrite E in Hpre.
    apply prefix_of_snoc in Hpre. destruct Hpre as [Heq | Hpre].
    + apply app_inj_tail in Heq. destruct Heq as [-> ->].
      exists obj. replace (base ++ [name; name]) with (hl' ++ [name])
        by (rewrite E, <- app_assoc; reflexivity).
      eapply lookup_inserted; eauto.
    + apply (lookup_kind_kept _ _ _ _ _ (p ++ [x; x]) Hi Ht).
      apply Hs. eapply prefix_of_trans; eauto.
Qed.

Lemma accept_keeps_invariant st level name obj st' :
  no_twin_dict (data (self st)) ->
  stack_recorded (data (self st)) (hier_list st) ->
  accept st level name obj = Ok st' ->
  no_twin_dict (data (self st')) /\
  stack_recorded (data (self st')) (hier_list st').
Proof.
  intros Hd Hs Ha.
  destruct (accept_data _ _ _ _ _ Ha) as [hl [Hu [Hi [-> _]]]].
  eapply insert_keeps_invariant; eauto.
Qed.

Lemma reachable_invariant self0 st :
  data self0 = [] ->
  reachable self0 st ->
  no_twin_dict (data (self st)) /\
  stack_recorded (data (self st)) (hier_list st).
Proof.
  intros H0 R.
  induction R as [| st R IH | st R IH | st R IH L | st n line st' R IH L B].
  - cbn. rewrite H0. split.
    + intros p x [items Hi]. rewrite lookup_nil in Hi; [discriminate |].
      now destruct p.
    + intros p x [q Hq]. now destruct p.
  - cbn. split; [exact (proj1 IH) |].
    intros p x [q Hq]. now destruct p.
  - exact IH.
  - exact IH.
  - destruct IH as [Hd Hs].
    destruct (body_line_cases _ _ _ _ B)
      as [[-> [-> _]] | [level [name [obj [_ Ha]]]]]; [auto |].
    eapply accept_keeps_invariant; eauto.
Qed.

(** The loop of [read_logfile] only goes through reachable readers. *)
Lemma read_lines_reachable self0 lines st line_no st' :
  reachable self0 st ->
  read_lines st line_no lines = Parsed st' -> reachable self0 st'.
Proof.
  apply (read_lines_invariant (reachable self0)).
  - apply reach_hierarchy.
  - intros s L R. now apply reach_marker.
  - intros s n l s' L R B. eapply reach_body; eauto.
Qed.

(** C4.  In every reader that [read_logfile] goes through, for every
    record that is about to be inserted: the place of the new power
    group is never an existing dictionary; if an element of the path
    stack leads to a power group, the insertion raises TypeError or
    AttributeError; an insertion that succeeds keeps every power group
    a power group and every dictionary a dictionary; and an exception
    in a body line ends the loop with that exception, line number and
    line. *)
Theorem tree_insertion_fails_fast verbose max_depth path_combine
        st level name obj :
  reachable (init verbose max_depth path_combine) st ->
  (forall hl,
      update_hier_list (hier_list st) (prev_level st) level name = Ok hl ->
      ~ is_dict (lookup (data (self st)) (hl ++ [name])) /\
      (forall p,
          p <> [] -> prefix_of p hl ->
          is_group (lookup (data (self st)) p) ->
          exists e, accept st level name obj = Raise e /\
                    (e = TypeError \/ e = AttributeError))) /\
  (forall st',
      accept st level name obj = Ok st' ->
      forall p,
        (is_group (lookup (data (self st)) p) ->
         is_group (lookup (data (self st')) p)) /\
        (is_dict (lookup (data (self st)) p) ->
         is_dict (lookup (data (self st')) p))) /\
  (forall line_no line rest e,
      look_for_power_nums st = true ->
      body_line st line_no line = Raise e ->
      read_lines st line_no (line :: rest) = Failed e line_no line).
Proof.
  intros R.
  destruct (reachable_invariant (init verbose max_depth path_combine) st
                               eq_refl R) as [Hd Hs].
  split; [| split].
  - intros hl Hu. split; [eapply target_not_dict; eauto |].
    intros p Hp Hpre Hg. unfold accept. rewrite Hu. cbn [bind].
    destruct (insert_group_through_group hl name obj _ p Hp Hpre Hg)
      as [e [-> He]].
    exists e. split; [reflexivity | exact He].
  - intros st' Ha p.
    destruct (accept_data _ _ _ _ _ Ha) as [hl [Hu [Hi _]]].
    eapply lookup_kind_kept; [exact Hi |].
    eapply target_not_dict; eauto.
  - intros n line rest e L B.
    rewrite (read_lines_body _ _ _ _ L), B. reflexivity.
Qed.

(** ** Lines of the body: skipped or fatal *)

Lemma compile_group_pattern fmt : Re.compile (group_pattern fmt) <> None.
Proof.
  assert (H : match Re.compile (group_pattern fmt) with
              | Some _ => true
              | None => false
              end = true) by (destruct fmt; vm_compute; reflexivity).
  intros E. rewrite E in H. discriminate.
Qed.

Lemma float_raises s e : Py.float s = Raise e -> e = ValueError.
Proof.
  unfold Py.float.
  destruct (Py.take_sign _) as [neg s0].
  destruct (Py.span _ s0) as [ip s1].
  destruct (match s1 with
            | "."%char :: r => Py.span Re.is_digit r
            | _ => ([], s1)
            end) as [fp s2].
  destruct (ip ++ fp); [intros H; injection H as <-; reflexivity |].
  destruct s2 as [| x r]; [discriminate |].
  destruct (_ || _); [| intros H; injection H as <-; reflexivity].
  destruct (Py.take_sign r) as [eneg r1].
  destruct (Py.span _ r1) as [ed r2].
  destruct ed; [intros H; injection H as <-; reflexivity |].
  destruct r2; [discriminate | intros H; injection H as <-; reflexivity].
Qed.

Lemma bind_raises {A B} (r : result A) (f : A -> result B) :
  (forall e, r = Raise e -> e = ValueError) ->
  (forall a e, f a = Raise e -> e = ValueError) ->
  forall e, bind r f = Raise e -> e = ValueError.
Proof.
  intros Hr Hf e. destruct r as [a | e0]; unfold bind.
  - apply Hf.
  - intros H. injection H as <-. now apply Hr.
Qed.

Lemma early_floats_raises fmt group e :
  early_floats fmt group = Raise e -> e = ValueError.
Proof.
  destruct fmt; unfold early_floats;
    repeat (apply bind_raises; [apply float_raises | intros ?]);
    discriminate.
Qed.

Lemma early_floats_ok fmt group v :
  early_floats fmt group = Ok v ->
  forall k, In k (early_groups fmt) -> exists q, Py.float (group k) = Ok q.
Proof.
  destruct fmt; unfold early_floats, early_groups; intros H k Hk.
  - destruct (Py.float (group 4%nat)) eqn:E4; [| discriminate].
    destruct (Py.float (group 5%nat)) eqn:E5; [| discriminate].
    destruct (Py.float (group 7%nat)) eqn:E7; [| discriminate].
    destruct (Py.float (group 8%nat)) eqn:E8; [| discriminate].
    simpl in Hk. intuition (subst; eauto).
  - destruct (Py.float (group 4%nat)) eqn:E4; [| discriminate].
    destruct (Py.float (group 5%nat)) eqn:E5; [| discriminate].
    destruct (Py.float (group 7%nat)) eqn:E7; [| discriminate].
    destruct (Py.float (group 8%nat)) eqn:E8; [| discriminate].
    destruct (Py.float (group 9%nat)) eqn:E9; [| discriminate].
    destruct (Py.float (group 10%nat)) eqn:E10; [| discriminate].
    simpl in Hk. intuition (subst; eauto).
Qed.

(** C2, as amended.  In the body of the report, a line that the
    pattern of the format does not match is skipped (with a warning
    when verbose) and the loop goes on; this includes a line with the
    shape of a record and a field that is not of the form of
    [sci_num].  A line that matches but has a number that [float]
    rejects ends the loop with ValueError, the line number and the
    line: any of the numbers converted before the depth test, or the
    leakage number of a record that is not beyond [max_depth]. *)
Theorem body_line_skip_or_fail st line_no line rest :
  look_for_power_nums st = true ->
  let fmt := self_format (self st) in
  (found (group_pattern fmt) line = false ->
   read_lines st line_no (line :: rest) =
   read_lines (if verbose (self st) then warn st line_no line else st)
              (S line_no) rest) /\
  (forall m,
      Re.search (group_pattern fmt) line = Some (Some m) ->
      let group := Re.group line m in
      let level := (Z.of_nat (String.length (group 1%nat)) / 2)%Z in
      (exists k, In k (early_groups fmt) /\
                 Py.float (group k) = Raise ValueError) \/
      (too_deep (max_depth (self st)) level = false /\
       Py.float (group 6%nat) = Raise ValueError) ->
      read_lines st line_no (line :: rest) = Failed ValueError line_no line).
Proof.
  intros L fmt. split.
  - intros F. rewrite (read_lines_body _ _ _ _ L).
    unfold body_line, parse_record. fold fmt.
    destruct (search_found (group_pattern fmt) line
                (compile_group_pattern fmt)) as [m [E Fm]].
    rewrite E. rewrite F in Fm. destruct m; [discriminate |]. reflexivity.
  - intros m Hm group level Hbad.
    rewrite (read_lines_body _ _ _ _ L).
    unfold body_line, parse_record, search. fold fmt. rewrite Hm.
    cbn [bind]. fold group.
    destruct (early_floats fmt group)
      as [[[[[[sw ip] tp] pc] gp] xp] | e] eqn:E.
    + cbn [bind]. fold level.
      destruct Hbad as [[k [Hk Hf]] | [Hdeep Hf]].
      * destruct (early_floats_ok _ _ _ E k Hk) as [q Hq]. congruence.
      * rewrite Hdeep, Hf. reflexivity.
    + cbn [bind]. now rewrite (early_floats_raises _ _ _ E).
Qed.

(** ** Filter anchoring *)

Lemma string_length_app (a b : string) :
  String.length (a ++ b)%string = (String.length a + String.length b)%nat.
Proof. induction a as [| c a IH]; simpl; [reflexivity | now rewrite IH]. Qed.

Lemma compile_anchored_B : Re.compile (anchor "B$") = Some anchored_B.
Proof. reflexivity. Qed.

Lemma match_here_bol p s pos opened caps :
  Re.match_here (Re.Bol :: p) s pos opened caps =
  if (pos =? 0)%nat then Re.match_here p s pos opened caps else None.
Proof. reflexivity. Qed.

Lemma match_here_eol s pos opened caps r :
  Re.match_here [Re.Eol] s pos opened caps = Some r ->
  s = [] \/ s = [Re.newline].
Proof.
  simpl. destruct s as [| a [| b s]]; [auto | | discriminate].
  destruct (Ascii.eqb_spec a Re.newline); [subst; auto | discriminate].
Qed.

(** C3, as amended.  A filter is prefixed with [^<top block>\.]
    exactly when the text [<top block>] occurs nowhere in it, and it is
    left as it is exactly when that text occurs somewhere in it.  The
    filter [B$] becomes [^<top block>\.B$], which matches the label
    [<top block>.B] (also when followed by a line feed) and no other
    label. *)
Theorem filter_anchoring :
  (forall filt,
      (anchor filt = (top_block_prefix ++ filt)%string <->
       ~ occurs_in top_block filt) /\
      (anchor filt = filt <-> occurs_in top_block filt)) /\
  anchor "B$" = "^<top block>\.B$" /\
  (forall label,
      found (anchor "B$") label = true <->
      label = "<top block>.B" \/ label = ln "<top block>.B").
Proof.
  split; [| split].
  - intros filt. destruct (anchor_spec filt) as [H1 H2].
    assert (N : (top_block_prefix ++ filt)%string <> filt).
    { intros E. apply (f_equal String.length) in E.
      rewrite string_length_app in E. simpl in E. lia. }
    assert (D : occurs_in top_block filt \/ ~ occurs_in top_block filt).
    { destruct (Re.search top_block_marker filt) as [[m |] |] eqn:E.
      - left. apply marker_found. eauto.
      - right. intros O. apply marker_found in O. destruct O as [m O].
        congruence.
      - right. intros O. apply marker_found in O. destruct O as [m O].
        congruence. }
    split; split.
    + intros E O. rewrite (H1 O) in E. congruence.
    + exact H2.
    + intros E. destruct D as [O | O]; [exact O |].
      rewrite (H2 O) in E. contradiction.
    + exact H1.
  - reflexivity.
  - intros label. split.
    + unfold found, Re.search. rewrite compile_anchored_B.
      unfold Re.search_regex.
      destruct (Re.search_from _ _ _) as [m |] eqn:E; [| discriminate].
      intros _. apply search_from_some in E.
      destruct E as [k [_ [_ E]]]. unfold anchored_B in E.
      rewrite match_alts_single, match_here_bol in E.
      destruct k; [| discriminate]. cbn [Nat.add Nat.eqb skipn] in E.
      apply match_here_lit in E. destruct E as [s' [Hs E]].
      apply match_here_eol in E.
      rewrite <- (string_of_list_ascii_of_string label), Hs.
      destruct E as [-> | ->]; [left | right]; reflexivity.
    + intros [-> | ->]; reflexivity.
Qed.

(** ** The count of power numbers *)

Lemma read_lines_power_num_count lines st line_no st' :
  read_lines st line_no lines = Parsed st' ->
  power_num_count (self st') = power_num_count (self st).
Proof.
  intros H.
  apply (read_lines_invariant
           (fun s => power_num_count (self s) = power_num_count (self st)))
    with (lines := lines) (st := st) (line_no := line_no); auto.
  intros s n l s' _ E B. apply body_line_frame in B.
  destruct B as (_ & _ & -> & _). exact E.
Qed.

Lemma dot_notated_rows_none self :
  power_num_count self = None -> leaves (data self) <> [] ->
  dot_notated_rows self = Raise TypeError.
Proof.
  intros Hc Hl. unfold dot_notated_rows.
  rewrite Hc, iterate_data_leaves.
  destruct (leaves (data self)); [congruence | reflexivity].
Qed.

(** C9, as amended.  After [read_logfile] on a new object the count
    of power numbers is still [None]; if the tree has at least one
    leaf, [get_filtered_dataframe] raises TypeError and leaves the
    list of filters as it was.  [get_2d_hierarchy_data] sets the
    count, and then the rows in dot notation can be built. *)
Theorem filtered_needs_flatten verbose max_depth path_combine logfile st
        top_name plot_col graph_kind max_entries :
  read_logfile (init verbose max_depth path_combine) logfile = Parsed st ->
  leaves (data (self st)) <> [] ->
  power_num_count (self st) = None /\
  get_filtered_dataframe (self st) top_name plot_col graph_kind max_entries
  = (top_name, Raise TypeError) /\
  power_num_count (fst (get_2d_hierarchy_data (self st)))
  = Some (List.length (get_header (self_format (self st)))) /\
  exists data_2d,
    dot_notated_rows (fst (get_2d_hierarchy_data (self st))) = Ok data_2d.
Proof.
  intros H Hl.
  assert (Hc : power_num_count (self st) = None).
  { unfold read_logfile in H. now apply read_lines_power_num_count in H. }
  split; [exact Hc |]. split; [| split].
  - unfold get_filtered_dataframe.
    now rewrite (dot_notated_rows_none _ Hc Hl).
  - reflexivity.
  - eexists. apply dot_notated_rows_leaves with
      (count := List.length (get_header (self_format (self st)))).
    + reflexivity.
    + assert (Hf : all_groups
                     (fun g => logfile_format g = self_format (self st))
                     (data (self st))).
      { unfold read_logfile in H.
        eapply read_lines_groups_format; [| | exact H];
          [apply all_groups_nil | reflexivity]. }
      cbn [fst get_2d_hierarchy_data data set_power_num_count].
      eapply Forall_impl; [| exact Hf].
      intros pg E. cbn beta in E. now rewrite get_data_length, E.
Qed.

(** ** The caller's list of filters *)

(** C10.  In every call of [get_filtered_dataframe] whose rows in dot
    notation are built, in particular in every call that returns, the
    caller's list holds the rewritten filters afterwards: an element
    without the text [<top block>] holds the prefixed pattern, an
    element with it is unchanged. *)
Theorem caller_list_rewritten self top_name plot_col graph_kind max_entries :
  (exists data_2d, dot_notated_rows self = Ok data_2d) \/
  (exists df, snd (get_filtered_dataframe self top_name plot_col graph_kind
                                          max_entries) = Ok df) ->
  let after := fst (get_filtered_dataframe self top_name plot_col graph_kind
                                           max_entries) in
  after = map anchor top_name /\
  forall i filt,
    nth_error top_name i = Some filt ->
    (~ occurs_in top_block filt ->
     nth_error after i = Some (top_block_prefix ++ filt)%string) /\
    (occurs_in top_block filt -> nth_error after i = Some filt).
Proof.
  intros H after.
  assert (E : after = map anchor top_name).
  { unfold after. unfold get_filtered_dataframe in *.
    destruct (dot_notated_rows self) as [data_2d | e]; [reflexivity |].
    destruct H as [[d Hd] | [df Hdf]]; discriminate. }
  split; [exact E |].
  intros i filt Hi. rewrite E.
  rewrite (map_nth_error anchor _ _ Hi).
  destruct (anchor_spec filt) as [H1 H2].
  split; intros O; f_equal; auto.
Qed.

(** ** Text of messages *)

Lemma string_app_assoc (a b c : string) :
  ((a ++ b) ++ c = a ++ b ++ c)%string.
Proof. induction a as [| x a IH]; simpl; [reflexivity | now rewrite IH]. Qed.

Lemma string_app_nil_r (a : string) : (a ++ "")%string = a.
Proof. induction a as [| x a IH]; simpl; [reflexivity | now rewrite IH]. Qed.

Lemma cat_cons x l : cat (x :: l) = (x ++ cat l)%string.
Proof.
  unfold cat. destruct l as [| y l]; simpl.
  - now rewrite string_app_nil_r.
  - reflexivity.
Qed.

Lemma occurs_in_refl s : occurs_in s s.
Proof. exists "", "". simpl. now rewrite string_app_nil_r. Qed.

Lemma occurs_in_trans a b c : occurs_in a b -> occurs_in b c -> occurs_in a c.
Proof.
  intros [p1 [q1 ->]] [p2 [q2 ->]].
  exists (p2 ++ p1)%string, (q1 ++ q2)%string.
  now rewrite !string_app_assoc.
Qed.

Lemma occurs_in_app_l a b c : occurs_in a b -> occurs_in a (b ++ c)%string.
Proof.
  intros [p [q ->]]. exists p, (q ++ c)%string.
  now rewrite !string_app_assoc.
Qed.

Lemma occurs_in_app_r a b c : occurs_in a c -> occurs_in a (b ++ c)%string.
Proof.
  intros [p [q ->]]. exists (b ++ p)%string, q.
  now rewrite !string_app_assoc.
Qed.

Lemma occurs_in_cat x l : In x l -> occurs_in x (cat l).
Proof.
  induction l as [| y l IH]; [contradiction |].
  rewrite cat_cons. intros [-> | H].
  - apply occurs_in_app_l, occurs_in_refl.
  - apply occurs_in_app_r. auto.
Qed.

(** ** The filter loop *)

Lemma combine_entry_label count entry r :
  combine_entry count entry = Ok r -> exists label, entry_label r = Ok label.
Proof.
  unfold combine_entry. destruct (Py.join _ _) as [s |]; [| discriminate].
  cbn [bind]. intros H. injection H as <-. now exists s.
Qed.

Lemma map_result_forall {A B} (f : A -> result B) (P : B -> Prop) l r :
  (forall x y, f x = Ok y -> P y) ->
  map_result f l = Ok r -> Forall P r.
Proof.
  intros Hf. revert r. induction l as [| x l IH]; intros r; simpl.
  - intros H. injection H as <-. constructor.
  - destruct (f x) as [y |] eqn:E; [| discriminate]. cbn [bind].
    destruct (map_result f l) as [ys |]; [| discriminate]. cbn [bind].
    intros H. injection H as <-. constructor; eauto.
Qed.

Lemma dot_notated_rows_labelled self data_2d :
  dot_notated_rows self = Ok data_2d ->
  Forall (fun entry => exists label, entry_label entry = Ok label) data_2d.
Proof.
  unfold dot_notated_rows. apply map_result_forall.
  intros x y. unfold dot_notate.
  destruct (power_num_count self); [| discriminate].
  apply combine_entry_label.
Qed.

Lemma first_match_find filt_str_list label :
  (forall filt, In filt filt_str_list -> Re.compile filt <> None) ->
  first_match filt_str_list label =
  Ok (find (fun filt => found filt label) filt_str_list).
Proof.
  induction filt_str_list as [| f l IH]; intros H; [reflexivity |].
  cbn [first_match find].
  destruct (search_found f label (H f (or_introl eq_refl))) as [m [E Fm]].
  rewrite E, Fm. cbn [bind]. destruct m; [reflexivity |].
  apply IH. intros g Hg. apply H. now right.
Qed.

Lemma is_used_set fu key filt b :
  is_used (dict_set fu key b) filt =
  if String.eqb key filt then b else is_used fu filt.
Proof.
  unfold is_used. destruct (String.eqb_spec key filt) as [-> | N].
  - now rewrite dict_get_set_same.
  - now rewrite dict_get_set_other.
Qed.

Lemma is_used_initial filt_str_list filt :
  is_used (fold_left (fun d f => dict_set d f false) filt_str_list []) filt
  = false.
Proof.
  assert (G : forall l d, is_used d filt = false ->
              is_used (fold_left (fun d f => dict_set d f false) l d) filt
              = false).
  { induction l as [| f l IH]; intros d Hd; [exact Hd |].
    simpl. apply IH. rewrite is_used_set. now destruct (String.eqb f filt). }
  apply G. reflexivity.
Qed.

(** The loop ends; a filter that matches no label is left as it was,
    and nothing is kept when no filter matches any label. *)
Lemma filter_entries_unmatched filt_str_list data_2d :
  (forall filt, In filt filt_str_list -> Re.compile filt <> None) ->
  Forall (fun entry => exists label, entry_label entry = Ok label) data_2d ->
  forall filters_used,
  exists kept filters_used',
    filter_entries filt_str_list data_2d filters_used
    = Ok (kept, filters_used') /\
    (forall filt, unmatched data_2d filt ->
                  is_used filters_used' filt = is_used filters_used filt) /\
    ((forall filt, In filt filt_str_list -> unmatched data_2d filt) ->
     kept = []).
Proof.
  intros Hc Hl. induction Hl as [| entry rest [label Hlabel] Hrest IH];
    intros fu.
  - exists [], fu. repeat split.
  - cbn [filter_entries]. rewrite Hlabel. cbn [bind].
    rewrite (first_match_find _ _ Hc). cbn [bind].
    destruct (find (fun filt => found filt label) filt_str_list)
      as [hit |] eqn:F.
    + destruct (IH (dict_set fu hit true)) as [kept [fu' [E [H1 H2]]]].
      rewrite E. cbn [bind fst snd].
      exists (entry :: kept), fu'. split; [reflexivity |].
      apply find_some in F. destruct F as [Hin Hfound].
      split.
      * intros filt U. rewrite H1.
        -- rewrite is_used_set.
           destruct (String.eqb_spec hit filt) as [-> | N]; [| reflexivity].
           rewrite (U entry label (or_introl eq_refl) Hlabel) in Hfound.
           discriminate.
        -- intros e l He. apply U. now right.
      * intros U.
        rewrite (U hit Hin entry label (or_introl eq_refl) Hlabel) in Hfound.
        discriminate.
    + destruct (IH fu) as [kept [fu' [E [H1 H2]]]].
      exists kept, fu'. split; [exact E |]. split.
      * intros filt U. apply H1. intros e l He. apply U. now right.
      * intros U. apply H2. intros filt Hin e l He. apply (U filt Hin).
        now right.
Qed.

Lemma unused_filter_named filt_str_list filters_used filt :
  In filt filt_str_list -> is_used filters_used filt = false ->
  occurs_in (Py.dquote ++ filt ++ Py.dquote)%string
            (unused_filters filt_str_list filters_used).
Proof.
  intros Hin Hu. unfold unused_filters.
  eapply occurs_in_trans; [| apply occurs_in_cat, in_map, Hin].
  cbv beta. rewrite Hu, !cat_cons.
  exists "", (", " ++ cat [])%string. simpl.
  now rewrite !string_app_assoc.
Qed.

(** C8, as amended.  In every call of [get_filtered_dataframe] whose
    rows in dot notation are built and whose filters all compile: if
    one of the rewritten filters matches the label of no row, or no
    row is matched by any filter, the call raises AssertionError, and
    the message holds every filter that matches no row, in double
    quotes. *)
Theorem unmatched_filter_reported self top_name plot_col graph_kind
        max_entries data_2d :
  dot_notated_rows self = Ok data_2d ->
  let filt_str_list := map anchor top_name in
  (forall filt, In filt filt_str_list -> Re.compile filt <> None) ->
  (exists filt, In filt filt_str_list /\ unmatched data_2d filt) \/
  (forall filt, In filt filt_str_list -> unmatched data_2d filt) ->
  exists msg,
    snd (get_filtered_dataframe self top_name plot_col graph_kind max_entries)
    = Raise (AssertionError msg) /\
    forall filt,
      In filt filt_str_list -> unmatched data_2d filt ->
      occurs_in (Py.dquote ++ filt ++ Py.dquote)%string msg.
Proof.
  intros Hrows filt_str_list Hc Hun.
  unfold get_filtered_dataframe. rewrite Hrows. cbn [snd].
  fold filt_str_list. unfold sorted_frame.
  destruct (filter_entries_unmatched filt_str_list data_2d Hc
              (dot_notated_rows_labelled _ _ Hrows)
              (fold_left (fun d filt => dict_set d filt false)
                         filt_str_list []))
    as [kept [fu [E [H1 H2]]]].
  rewrite E. cbn [bind].
  assert (Hunused : forall filt, unmatched data_2d filt ->
                                 is_used fu filt = false).
  { intros filt U. rewrite (H1 filt U). apply is_used_initial. }
  destruct (all_filters_used filt_str_list fu) eqn:A; cbn [negb].
  - (* every filter was used: the list of filters is empty *)
    destruct Hun as [[filt [Hin U]] | U].
    + unfold all_filters_used in A. rewrite forallb_forall in A.
      specialize (Hunused filt U). rewrite (A filt Hin) in Hunused.
      discriminate.
    + rewrite (H2 U). cbn [bind]. eexists. split; [reflexivity |].
      intros filt Hin Uf.
      unfold all_filters_used in A. rewrite forallb_forall in A.
      specialize (Hunused filt Uf). rewrite (A filt Hin) in Hunused.
      discriminate.
  - cbn [bind]. eexists. split; [reflexivity |].
    intros filt Hin U. rewrite !cat_cons.
    apply occurs_in_app_r, occurs_in_app_l.
    apply unused_filter_named; auto.
Qed.

(** ** The instance name of a record is a word *)

Lemma match_here_caps p : forall s pos opened caps e spans,
  Re.match_here p s pos opened caps = Some (e, spans) ->
  exists more, spans = rev caps ++ more.
Proof.
  induction p as [| i p IH]; intros s pos opened caps e spans H.
  - simpl in H. injection H as _ <-. exists []. now rewrite app_nil_r.
  - destruct i as [c q | | | |].
    + destruct q.
      * simpl in H. destruct s as [| a s]; [discriminate |].
        destruct (c a); [eauto | discriminate].
      * rewrite match_here_star in H. apply greedy_some in H.
        destruct H as (taken & rest & _ & _ & H). eauto.
      * simpl in H. destruct s as [| a s]; [discriminate |].
        destruct (c a); [| discriminate].
        apply greedy_some in H. destruct H as (taken & rest & _ & _ & H).
        eauto.
      * simpl in H. destruct s as [| a s]; [eauto |].
        destruct (c a); [| eauto].
        destruct (Re.match_here p s (S pos) opened caps) as [r |] eqn:E.
        -- injection H as ->. eauto.
        -- eauto.
    + simpl in H. eauto.
    + simpl in H. destruct opened as [| st opened]; [discriminate |].
      apply IH in H. destruct H as [more ->]. simpl.
      exists ((st, pos) :: more). now rewrite <- app_assoc.
    + simpl in H. destruct (pos =? 0)%nat; [eauto | discriminate].
    + simpl in H. destruct s as [| a [| b s]]; [eauto | | discriminate].
      destruct (Ascii.eqb a Re.newline); [eauto | discriminate].
Qed.

(** In a match of these items and more, the second group spans a
    non-empty run of word characters of the input. *)
Lemma match_here_record_head tail s pos e spans :
  Re.match_here (record_head ++ tail) s pos [] [] = Some (e, spans) ->
  exists blanks name rest p1,
    s = blanks ++ name ++ rest /\
    p1 = (pos + List.length blanks)%nat /\
    name <> [] /\ forallb Re.is_word name = true /\
    nth_error spans 1 = Some (p1, (p1 + List.length name)%nat).
Proof.
  unfold record_head. cbn [app]. intros H.
  change (Re.match_here
            (Re.Chr Re.is_space Re.Star :: Re.GroupClose :: Re.GroupOpen
             :: Re.Chr Re.is_word Re.Plus :: Re.GroupClose :: tail)
            s pos [pos] [] = Some (e, spans)) in H.
  rewrite match_here_star in H. apply greedy_some in H.
  destruct H as (blanks & rest1 & -> & _ & H).
  set (p1 := (pos + List.length blanks)%nat) in *.
  change (Re.match_here (Re.Chr Re.is_word Re.Plus :: Re.GroupClose :: tail)
                        rest1 p1 [p1] [(pos, p1)] = Some (e, spans)) in H.
  cbn [Re.match_here] in H.
  destruct rest1 as [| a rest1]; [discriminate |].
  destruct (Re.is_word a) eqn:Wa; [| discriminate].
  apply greedy_some in H. destruct H as (taken & rest2 & -> & Hw & H).
  change (Re.match_here tail rest2 (S p1 + List.length taken) []
                        [(p1, (S p1 + List.length taken)%nat); (pos, p1)]
          = Some (e, spans)) in H.
  apply match_here_caps in H. destruct H as [more ->].
  exists blanks, (a :: taken), rest2, p1.
  split; [reflexivity |]. split; [reflexivity |].
  split; [discriminate |]. split; [simpl; now rewrite Wa |].
  simpl. do 2 f_equal. lia.
Qed.

Lemma list_ascii_substring (s : string) : forall a n,
  list_ascii_of_string (substring a n s) =
  firstn n (skipn a (list_ascii_of_string s)).
Proof.
  induction s as [| c s IH]; intros a n.
  - destruct a, n; reflexivity.
  - destruct a as [| a].
    + destruct n as [| n]; [reflexivity |]. simpl. now rewrite IH.
    + simpl. apply IH.
Qed.

Lemma compile_record_head fmt :
  exists tail, Re.compile (group_pattern fmt) = Some [record_head ++ tail].
Proof. destruct fmt; eexists; reflexivity. Qed.

Lemma group_2_word fmt line m :
  Re.search (group_pattern fmt) line = Some (Some m) ->
  word (Re.group line m 2).
Proof.
  unfold Re.search. destruct (compile_record_head fmt) as [tail ->].
  intros H. injection H as H. unfold Re.search_regex in H.
  apply search_from_some in H. destruct H as (k & Hk & _ & H).
  rewrite match_alts_single in H.
  apply match_here_record_head in H.
  destruct H as (blanks & name & rest & p1 & Hs & Hp1 & Hne & Hw & Hspan).
  unfold Re.group. cbn [Nat.sub]. rewrite Hspan.
  assert (E : list_ascii_of_string
                (substring p1 (p1 + List.length name - p1) line) = name).
  { rewrite list_ascii_substring.
    replace (p1 + List.length name - p1)%nat with (List.length name) by lia.
    rewrite <- (firstn_skipn k (list_ascii_of_string line)), Hs.
    assert (Hlen : List.length (firstn k (list_ascii_of_string line)) = k)
      by (rewrite length_firstn; lia).
    rewrite Hp1. cbn [Nat.add].
    rewrite !skipn_app, Hlen.
    replace (k + List.length blanks - k)%nat with (List.length blanks) by lia.
    rewrite (skipn_all2 (firstn k _)) by lia.
    rewrite skipn_all. cbn [app].
    replace (List.length blanks - List.length blanks)%nat with 0%nat by lia.
    cbn [skipn]. rewrite firstn_app, firstn_all, Nat.sub_diag.
    cbn [firstn]. now rewrite app_nil_r. }
  unfold word, is_word_string. rewrite E, Hw, andb_true_r.
  apply negb_true_iff. apply String.eqb_neq. intros E0.
  rewrite E0 in E. simpl in E. congruence.
Qed.

Lemma parse_record_word fmt md line level name obj :
  parse_record fmt md line = Ok (Record_at level name obj) -> word name.
Proof.
  unfold parse_record, search.
  destruct (Re.search (group_pattern fmt) line) as [[m |] |] eqn:S;
    cbn [bind]; try discriminate.
  destruct (early_floats _ _) as [[[[[[sw ip] tp] pc] gp] xp] |];
    cbn [bind]; [| discriminate].
  destruct (too_deep _ _); [discriminate |].
  destruct (Py.float _); cbn [bind]; [| discriminate].
  intros E. injection E as _ <- _. eapply group_2_word; eauto.
Qed.

(** ** Trees with distinct words as keys *)

Lemma dict_set_in {V} (d : list (string * V)) key v k w :
  In (k, w) (dict_set d key v) -> (k = key /\ w = v) \/ In (k, w) d.
Proof.
  induction d as [| [k0 w0] d IH]; simpl.
  - intros [E | []]. injection E as <- <-. now left.
  - destruct (String.eqb_spec k0 key) as [-> | N]; simpl.
    + intros [E | H]; [injection E as <- <-; now left | now right; right].
    + intros [E | H]; [now right; left |].
      destruct (IH H) as [? | ?]; [now left | now right; right].
Qed.

Lemma dict_set_keys {V} (d : list (string * V)) key v k :
  In k (map fst (dict_set d key v)) <-> k = key \/ In k (map fst d).
Proof.
  induction d as [| [k0 w0] d IH]; simpl.
  - split; [intros [<- | []]; now left | intros [-> | []]; now left].
  - destruct (String.eqb_spec k0 key) as [-> | N]; simpl.
    + split; [intros [<- | H]; auto | intros [-> | [<- | H]]; auto].
    + rewrite IH. tauto.
Qed.

Lemma dict_set_NoDup {V} (d : list (string * V)) key v :
  NoDup (map fst d) -> NoDup (map fst (dict_set d key v)).
Proof.
  induction d as [| [k0 w0] d IH]; simpl; intros H.
  - repeat constructor. intros [].
  - apply NoDup_cons_iff in H. destruct H as [H1 H2].
    destruct (String.eqb_spec k0 key) as [-> | N]; simpl.
    + now constructor.
    + constructor; [| auto]. rewrite dict_set_keys. intros [E | E]; auto.
Qed.

Lemma dict_get_in {V} (d : list (string * V)) key v :
  dict_get d key = Some v -> In (key, v) d.
Proof.
  induction d as [| [k0 w0] d IH]; simpl; [discriminate |].
  destruct (String.eqb_spec k0 key) as [-> | N].
  - intros E. injection E as ->. now left.
  - auto.
Qed.

Lemma well_keyed_nil own : well_keyed own [].
Proof. constructor; simpl; try constructor; intros; contradiction. Qed.

Lemma well_keyed_set_dict own d key child :
  well_keyed own d -> word key -> well_keyed (Some key) child ->
  well_keyed own (dict_set d key (Dict child)).
Proof.
  intros H Hk Hc. inversion H as [? ? Hn Hw Hg Hd]; subst.
  constructor.
  - now apply dict_set_NoDup.
  - intros k v Hin. apply dict_set_in in Hin.
    destruct Hin as [[-> _] | Hin]; eauto.
  - intros k g Hin. apply dict_set_in in Hin.
    destruct Hin as [[_ E] | Hin]; [discriminate | eauto].
  - intros k c Hin. apply dict_set_in in Hin.
    destruct Hin as [[-> E] | Hin]; [now injection E as -> | eauto].
Qed.

Lemma well_keyed_set_group d name obj :
  well_keyed (Some name) d -> word name ->
  well_keyed (Some name) (dict_set d name (Group obj)).
Proof.
  intros H Hk. inversion H as [? ? Hn Hw Hg Hd]; subst.
  constructor.
  - now apply dict_set_NoDup.
  - intros k v Hin. apply dict_set_in in Hin.
    destruct Hin as [[-> _] | Hin]; eauto.
  - intros k g Hin. apply dict_set_in in Hin.
    destruct Hin as [[-> _] | Hin]; [reflexivity | eauto].
  - intros k c Hin. apply dict_set_in in Hin.
    destruct Hin as [[_ E] | Hin]; [discriminate | eauto].
Qed.

(** An insertion along a path of words that ends in the name of the
    record keeps the shape. *)
Lemma well_keyed_insert name obj : word name -> forall hl own d d',
  well_keyed own d -> Forall word hl ->
  last hl name = name -> (hl = [] -> own = Some name) ->
  insert_group hl name obj d = Ok d' -> well_keyed own d'.
Proof.
  intros Hname. induction hl as [| h t IH]; intros own d d' Hd Hw Hl Ho; simpl.
  - intros E. injection E as <-. rewrite (Ho eq_refl) in *.
    now apply well_keyed_set_group.
  - inversion Hw as [| ? ? Hh Ht]; subst.
    assert (Hl' : last t name = name).
    { destruct t as [| x t]; [reflexivity | exact Hl]. }
    assert (Ho' : t = [] -> Some h = Some name).
    { intros ->. simpl in Hl. now subst. }
    destruct (dict_get d h) as [[child | g] |] eqn:G.
    + destruct (insert_group t name obj child) as [child' |] eqn:E;
        [| discriminate].
      cbn [bind]. intros E'. injection E' as <-.
      apply well_keyed_set_dict; [exact Hd | exact Hh |].
      apply (IH (Some h) child child'); auto.
      inversion Hd as [? ? _ _ _ Hdict]; subst.
      apply Hdict. now apply dict_get_in.
    + destruct t; discriminate.
    + destruct (insert_group t name obj []) as [child' |] eqn:E;
        [| discriminate].
      cbn [bind]. intros E'. injection E' as <-.
      apply well_keyed_set_dict; [exact Hd | exact Hh |].
      apply (IH (Some h) [] child'); auto. apply well_keyed_nil.
Qed.

Lemma accept_well_keyed st level name obj st' :
  word name ->
  well_keyed None (data (self st)) -> Forall word (hier_list st) ->
  accept st level name obj = Ok st' ->
  well_keyed None (data (self st')) /\ Forall word (hier_list st').
Proof.
  intros Hname Hd Hw Ha.
  destruct (accept_data _ _ _ _ _ Ha) as [hl [Hu [Hi [-> _]]]].
  destruct (update_hier_list_shape _ _ _ _ _ Hu) as [base [-> [q Hq]]].
  assert (Hhl : Forall word (base ++ [name])).
  { apply Forall_app. split; [| now repeat constructor].
    rewrite Hq in Hw. now apply Forall_app in Hw. }
  split; [| exact Hhl].
  eapply well_keyed_insert; [exact Hname | exact Hd | exact Hhl | | | exact Hi].
  - apply last_last.
  - intros E. now destruct base.
Qed.

(** The trees of [read_logfile] have the shape. *)
Lemma read_lines_well_keyed lines st line_no st' :
  well_keyed None (data (self st)) -> Forall word (hier_list st) ->
  read_lines st line_no lines = Parsed st' ->
  well_keyed None (data (self st')).
Proof.
  intros H1 H2 Hr.
  apply (read_lines_invariant
           (fun s => well_keyed None (data (self s)) /\
                     Forall word (hier_list s)))
    with (lines := lines) (st := st) (line_no := line_no) (st' := st');
    auto.
  intros s n l s' L [A B] Hb.
  destruct (body_line_cases _ _ _ _ Hb)
    as [[-> [-> _]] | [level [name [obj [Hp Ha]]]]]; [auto |].
  eapply accept_well_keyed; eauto. eapply parse_record_word; eauto.
Qed.

(** ** The labels of a tree with distinct words as keys *)

Lemma leaves_in d p g :
  In (p, g) (leaves d) ->
  (p = [] /\ exists key, In (key, Group g) d) \/
  (exists key child p', p = key :: p' /\ In (key, Dict child) d /\
                        In (p', g) (leaves child)).
Proof.
  induction d as [| [k v] d IH]; [contradiction |].
  rewrite leaves_cons. intros H. apply in_app_or in H.
  destruct H as [H | H].
  - destruct v as [child | g0].
    + apply in_map_iff in H. destruct H as [[p' g'] [E H]].
      cbn [fst snd] in E. injection E as <- <-.
      right. exists k, child, p'. split; [reflexivity |].
      split; [now left | exact H].
    + destruct H as [E | []]. injection E as <- <-.
      left. split; [reflexivity |]. exists k. now left.
  - destruct (IH H) as [[-> [key Hk]] | [key [child [p' [-> [Hk Hp]]]]]].
    + left. split; [reflexivity |]. exists key. now right.
    + right. exists key, child, p'. split; [reflexivity |].
      split; [now right | exact Hp].
Qed.

Lemma well_keyed_paths own d :
  well_keyed own d ->
  NoDup (map fst (leaves d)) /\
  forall p g, In (p, g) (leaves d) ->
              Forall word p /\ (p = [] -> own <> None).
Proof.
  induction 1 as [own d Hn Hw Hg Hd IH]. split.
  - assert (G : forall l, incl l d -> NoDup (map fst l) ->
                          NoDup (map fst (leaves l))).
    { induction l as [| [k v] l IHl]; intros Hi Hnl; [constructor |].
      simpl in Hnl. apply NoDup_cons_iff in Hnl. destruct Hnl as [Hk Hnl].
      assert (Hi' : incl l d) by (intros x Hx; apply Hi; now right).
      assert (Hkv : In (k, v) d) by (apply Hi; now left).
      rewrite leaves_cons, map_app. apply NoDup_app.
      - destruct v as [child | g].
        + rewrite map_map. cbn [fst].
          rewrite <- (map_map fst (cons k)).
          apply NoDup_map_NoDup_ForallPairs.
          * intros a b _ _ E. now injection E.
          * apply (IH k child Hkv).
        + repeat constructor. intros [].
      - now apply IHl.
      - intros p Hp Hq.
        apply in_map_iff in Hq. destruct Hq as [[p' g'] [E Hq]].
        cbn [fst] in E. subst p'.
        apply leaves_in in Hq.
        destruct v as [child | g].
        + rewrite map_map in Hp. apply in_map_iff in Hp.
          destruct Hp as [[p0 g0] [E _]]. cbn [fst] in E. subst p.
          destruct Hq as [[E _] | [key [c [p' [E [Hin _]]]]]];
            [discriminate |].
          injection E as <- _. apply Hk.
          apply (in_map fst) in Hin. exact Hin.
        + destruct Hp as [<- | []].
          destruct Hq as [[_ [key Hin]] | [key [c [p' [E _]]]]];
            [| discriminate].
          assert (E1 : own = Some k) by (eapply Hg; eauto).
          assert (E2 : own = Some key) by (eapply Hg; apply Hi'; eauto).
          assert (key = k) by congruence. subst key.
          apply Hk. apply (in_map fst) in Hin. exact Hin. }
    apply G; [apply incl_refl | exact Hn].
  - intros p g Hin. apply leaves_in in Hin.
    destruct Hin as [[-> [key Hin]] | [key [child [p' [-> [Hin Hp]]]]]].
    + split; [constructor |]. intros _. rewrite (Hg _ _ Hin). discriminate.
    + split; [| discriminate].
      constructor; [eapply Hw; eauto |].
      destruct (IH key child Hin) as [_ Hc]. apply (Hc p' g Hp).
Qed.

(** A dot is no word character, so the names of a path can be read
    back from its dot notation. *)
Lemma word_not_empty_tail (x y r1 r2 : string) :
  forallb Re.is_word (list_ascii_of_string x) = true ->
  forallb Re.is_word (list_ascii_of_string y) = true ->
  (r1 = EmptyString \/ exists t, r1 = String "." t) ->
  (r2 = EmptyString \/ exists t, r2 = String "." t) ->
  (x ++ r1)%string = (y ++ r2)%string -> x = y /\ r1 = r2.
Proof.
  revert y. induction x as [| a x IH]; intros y Hx Hy H1 H2 E.
  - destruct y as [| b y]; [auto |].
    simpl in E, Hy. apply andb_true_iff in Hy. destruct Hy as [Hb _].
    destruct H1 as [-> | [t ->]]; [discriminate |].
    injection E as <- _. discriminate.
  - destruct y as [| b y].
    + simpl in E, Hx. apply andb_true_iff in Hx. destruct Hx as [Ha _].
      destruct H2 as [-> | [t ->]]; [discriminate |].
      injection E as -> _. discriminate.
    + simpl in E, Hx, Hy. injection E as <- E.
      apply andb_true_iff in Hx, Hy.
      destruct (IH y (proj2 Hx) (proj2 Hy) H1 H2 E) as [-> ->]. auto.
Qed.

Lemma word_chars s : word s ->
  forallb Re.is_word (list_ascii_of_string s) = true.
Proof.
  unfold word, is_word_string. intros H.
  apply andb_true_iff in H. tauto.
Qed.

Lemma concat_cons (x : string) l :
  String.concat "." (x :: l) =
  (x ++ match l with
        | [] => EmptyString
        | _ :: _ => String "." (String.concat "." l)
        end)%string.
Proof.
  destruct l as [| y l]; [| reflexivity].
  simpl. induction x as [| a x IH]; [reflexivity |]. simpl. now rewrite <- IH.
Qed.

Lemma dot_notation_injective p : forall q,
  Forall word p -> Forall word q -> p <> [] -> q <> [] ->
  String.concat "." p = String.concat "." q -> p = q.
Proof.
  induction p as [| x p IH]; intros q Hp Hq Np Nq E; [congruence |].
  destruct q as [| y q]; [congruence |].
  inversion Hp as [| ? ? Hx Hp']; subst.
  inversion Hq as [| ? ? Hy Hq']; subst.
  rewrite !concat_cons in E.
  apply word_not_empty_tail in E.
  - destruct E as [-> E]. f_equal.
    destruct p as [| x' p], q as [| y' q]; try discriminate; [reflexivity |].
    injection E as E. apply IH; auto; discriminate.
  - now apply word_chars.
  - now apply word_chars.
  - destruct p; [now left | right; eauto].
  - destruct q; [now left | right; eauto].
Qed.

(** The rows of a tree of [read_logfile] have distinct labels. *)
Lemma well_keyed_labels d :
  well_keyed None d ->
  NoDup (map (fun pg => String.concat "." (fst pg)) (leaves d)).
Proof.
  intros H. destruct (well_keyed_paths _ _ H) as [Hn Hp].
  rewrite <- (map_map fst (String.concat ".")).
  apply NoDup_map_NoDup_ForallPairs; [| exact Hn].
  intros p q Hip Hiq E.
  apply in_map_iff in Hip, Hiq.
  destruct Hip as [[p' g] [<- Hip]], Hiq as [[q' g'] [<- Hiq]].
  cbn [fst] in *.
  destruct (Hp _ _ Hip) as [Wp Np], (Hp _ _ Hiq) as [Wq Nq].
  apply dot_notation_injective; auto.
  - intros Z. now apply Np.
  - intros Z. now apply Nq.
Qed.

(** ** Sorting *)

Lemma insert_sorted_perm j x l : Permutation (Pd.insert_sorted j x l) (x :: l).
Proof.
  induction l as [| y l IH]; simpl; [reflexivity |].
  destruct (Pd.before _ _); [| reflexivity].
  rewrite IH. apply perm_swap.
Qed.

Lemma sort_perm j l : Permutation (fold_right (Pd.insert_sorted j) [] l) l.
Proof.
  induction l as [| x l IH]; simpl; [reflexivity |].
  now rewrite insert_sorted_perm, IH.
Qed.

Lemma before_asym a b :
  Pd.is_str a = false -> Pd.is_str b = false ->
  Pd.before a b = true -> Pd.before b a = false.
Proof.
  destruct a as [sa | x |], b as [sb | y |]; simpl; try discriminate; auto.
  intros _ _ H. apply negb_true_iff in H. apply negb_false_iff.
  apply Qle_bool_iff.
  destruct (Qlt_le_dec y x) as [Hlt | Hle].
  - now apply Qlt_le_weak.
  - apply Qle_bool_iff in Hle. congruence.
Qed.

Lemma before_neg_trans a b c :
  Pd.is_str a = false -> Pd.is_str b = false -> Pd.is_str c = false ->
  Pd.before c b = false -> Pd.before b a = false -> Pd.before c a = false.
Proof.
  destruct a as [sa | x |], b as [sb | y |], c as [sc | z |]; simpl;
    try discriminate; auto.
  intros _ _ _ H1 H2. apply negb_false_iff in H1, H2. apply negb_false_iff.
  apply Qle_bool_iff in H1, H2. apply Qle_bool_iff.
  eapply Qle_trans; eauto.
Qed.

Lemma insert_sorted_sorted j x l :
  Forall (fun r => Pd.is_str (Pd.value j r) = false) (x :: l) ->
  StronglySorted (not_before j) l ->
  StronglySorted (not_before j) (Pd.insert_sorted j x l).
Proof.
  intros Hs Hl. induction Hl as [| y l Hl IH Hy]; simpl.
  - repeat constructor.
  - inversion Hs as [| ? ? Hx Hyl]; subst.
    inversion Hyl as [| ? ? Hy' Hl']; subst.
    destruct (Pd.before (Pd.value j y) (Pd.value j x)) eqn:B.
    + constructor.
      * apply IH. now constructor.
      * eapply Permutation_Forall;
          [symmetry; apply insert_sorted_perm |].
        constructor; [| exact Hy].
        unfold not_before. now apply before_asym.
    + constructor; [now constructor |].
      constructor; [exact B |].
      rewrite Forall_forall in *. intros z Hz.
      unfold not_before in *.
      apply (before_neg_trans _ (Pd.value j y)); auto.
Qed.

Lemma sort_sorted j l :
  Forall (fun r => Pd.is_str (Pd.value j r) = false) l ->
  StronglySorted (not_before j) (fold_right (Pd.insert_sorted j) [] l).
Proof.
  induction l as [| x l IH]; intros H; simpl; [constructor |].
  inversion H; subst. apply insert_sorted_sorted; [| auto].
  constructor; [assumption |].
  eapply Permutation_Forall; [symmetry; apply sort_perm | assumption].
Qed.

Lemma sorted_split {A} (R : A -> A -> Prop) l1 l2 :
  StronglySorted R (l1 ++ l2) ->
  forall a b, In a l1 -> In b l2 -> R a b.
Proof.
  induction l1 as [| x l1 IH]; intros H a b Ha Hb; [contradiction |].
  simpl in H. apply StronglySorted_inv in H. destruct H as [H1 H2].
  destruct Ha as [-> | Ha].
  - rewrite Forall_forall in H2. apply H2. apply in_or_app. now right.
  - eapply IH; eauto.
Qed.

Lemma sort_values_inv df by_col out :
  Pd.sort_values df by_col = Ok out ->
  exists j, Pd.index_of by_col (columns df) = Some j /\
            columns out = columns df /\
            rows out = fold_right (Pd.insert_sorted j) [] (rows df).
Proof.
  unfold Pd.sort_values.
  destruct (Pd.index_of by_col (columns df)) as [j |]; [| discriminate].
  destruct (_ && _); [discriminate |].
  intros H. injection H as <-. exists j. auto.
Qed.

Lemma sort_values_no_str df by_col j :
  Pd.index_of by_col (columns df) = Some j ->
  Forall (fun r => Pd.is_str (Pd.value j r) = false) (rows df) ->
  Pd.sort_values df by_col =
  Ok (mk_frame (columns df) (fold_right (Pd.insert_sorted j) [] (rows df))).
Proof.
  intros Hj Hs. unfold Pd.sort_values. rewrite Hj.
  replace (existsb Pd.is_str (map (Pd.value j) (rows df))) with false.
  - now rewrite andb_false_r.
  - symmetry. apply not_true_iff_false. intros E.
    apply existsb_exists in E. destruct E as [c [Hc E]].
    apply in_map_iff in Hc. destruct Hc as [r [<- Hr]].
    rewrite Forall_forall in Hs. rewrite (Hs r Hr) in E. discriminate.
Qed.

(** ** Positions, sums and labels *)

Lemma nth_error_skipn {A} (l : list A) a x :
  nth_error l a = Some x -> skipn a l = x :: skipn (S a) l.
Proof.
  revert a. induction l as [| y l IH]; intros [| a]; simpl;
    try discriminate.
  - intros H. now injection H as <-.
  - intros H. rewrite (IH _ H). reflexivity.
Qed.

Lemma at_position_nat {A} (l : list A) a x :
  nth_error l a = Some x -> Pd.at_position l (Z.of_nat a) = Ok x.
Proof.
  intros H. unfold Pd.at_position.
  assert (a < List.length l)%nat by (apply nth_error_Some; congruence).
  destruct (Z.ltb_spec (Z.of_nat a) 0); [lia |].
  destruct (Z.leb_spec 0 (Z.of_nat a)); [| lia].
  destruct (Z.ltb_spec (Z.of_nat a) (Z.of_nat (List.length l))); [| lia].
  cbn [andb]. now rewrite Nat2Z.id, H.
Qed.

Lemma map_result_positions {A} (l : list A) n : forall a,
  (a + n <= List.length l)%nat ->
  map_result (Pd.at_position l) (map Z.of_nat (seq a n))
  = Ok (firstn n (skipn a l)).
Proof.
  induction n as [| n IH]; intros a Ha; [reflexivity |].
  cbn [seq map map_result].
  destruct (nth_error l a) as [x |] eqn:E.
  - rewrite (at_position_nat _ _ _ E). cbn [bind].
    rewrite IH by lia. cbn [bind].
    now rewrite (nth_error_skipn _ _ _ E).
  - apply nth_error_None in E. lia.
Qed.

Lemma range_nat a b :
  (0 <= a)%Z ->
  Pd.range a (Z.of_nat b) =
  map Z.of_nat (seq (Z.to_nat a) (b - Z.to_nat a)).
Proof.
  intros Ha. unfold Pd.range.
  replace (Z.to_nat (Z.of_nat b - a)) with (b - Z.to_nat a)%nat by lia.
  generalize (b - Z.to_nat a)%nat as n. intros n.
  rewrite <- (Nat.add_0_r (Z.to_nat a)) at 1.
  generalize 0%nat as s. induction n as [| n IH]; intros s; [reflexivity |].
  cbn [seq map]. f_equal; [lia |].
  rewrite IH. now rewrite Nat.add_succ_r.
Qed.

Lemma iloc_tail df max_entries :
  (0 <= max_entries)%Z ->
  (max_entries <= Z.of_nat (List.length (rows df)))%Z ->
  Pd.iloc df (Pd.range max_entries (Z.of_nat (List.length (rows df))))
  = Ok (skipn (Z.to_nat max_entries) (rows df)).
Proof.
  intros H0 H1. unfold Pd.iloc. rewrite range_nat by exact H0.
  rewrite map_result_positions by lia.
  rewrite firstn_all2; [reflexivity |]. rewrite length_skipn. lia.
Qed.

Lemma labelled_in (labels : list string) (r : string * list cell) :
  existsb (String.eqb (fst r)) labels = true <-> In (fst r) labels.
Proof.
  rewrite existsb_exists. split.
  - intros [lab [Hlab E]]. apply String.eqb_eq in E. now subst.
  - intros H. exists (fst r). split; [exact H | apply String.eqb_refl].
Qed.

Lemma drop_tail cols (kept cut : list (string * list cell)) :
  NoDup (map fst (kept ++ cut)) ->
  rows (Pd.drop (mk_frame cols (kept ++ cut)) (map fst cut)) = kept.
Proof.
  intros Hn. cbn [Pd.drop rows]. rewrite filter_app.
  rewrite map_app in Hn.
  assert (Hcut : forall l, incl l cut ->
            filter (fun r => negb (existsb (String.eqb (fst r)) (map fst cut)))
                   l = []).
  { induction l as [| c l IH]; intros Hi; [reflexivity |].
    cbn [filter].
    assert (E : existsb (String.eqb (fst c)) (map fst cut) = true).
    { apply labelled_in, in_map, Hi. now left. }
    rewrite E. cbn [negb]. apply IH. intros x Hx. apply Hi. now right. }
  rewrite (Hcut cut (incl_refl cut)), app_nil_r.
  apply forallb_filter_id, forallb_forall.
  intros r Hr. apply negb_true_iff, not_true_iff_false. intros E.
  apply labelled_in in E.
  induction kept as [| k kept IH]; [contradiction |].
  simpl in Hn. apply NoDup_cons_iff in Hn. destruct Hn as [Hk Hn].
  destruct Hr as [-> | Hr]; [| auto].
  apply Hk. apply in_or_app. now right.
Qed.

Lemma index_of_nth_error name cols j :
  Pd.index_of name cols = Some j -> nth_error cols j = Some name.
Proof.
  revert j. induction cols as [| c cols IH]; intros j; simpl; [discriminate |].
  destruct (String.eqb_spec c name) as [-> | N].
  - intros H. now injection H as <-.
  - destruct (Pd.index_of name cols) as [i |]; [| discriminate].
    intros H. injection H as <-. now apply IH.
Qed.

Lemma index_of_lt name cols j :
  Pd.index_of name cols = Some j -> (j < List.length cols)%nat.
Proof.
  intros H. apply index_of_nth_error in H.
  apply nth_error_Some. congruence.
Qed.

Lemma nth_set_nth_same {A} j (v d : A) l :
  (j < List.length l)%nat -> nth j (Pd.set_nth j v l) d = v.
Proof.
  revert j. induction l as [| x l IH]; intros [| j]; simpl; try lia; auto.
  intros H. apply IH. lia.
Qed.

Lemma nth_set_nth_other {A} j j' (v d : A) l :
  j <> j' -> nth j (Pd.set_nth j' v l) d = nth j l d.
Proof.
  revert j j'. induction l as [| x l IH]; intros [| j] [| j'] N; simpl;
    auto; try congruence.
Qed.

Lemma sum_length cols rs : List.length (Pd.sum cols rs) = List.length cols.
Proof. unfold Pd.sum. now rewrite length_map, length_seq. Qed.

Lemma nth_sum cols rs j :
  (j < List.length cols)%nat ->
  nth j (Pd.sum cols rs) CNone = Pd.sum_cells (map (Pd.value j) rs).
Proof.
  intros H. unfold Pd.sum.
  rewrite nth_indep with (d' := Pd.sum_cells (map (Pd.value 0) rs))
    by (rewrite length_map, length_seq; exact H).
  rewrite (map_nth (fun j => Pd.sum_cells (map (Pd.value j) rs))).
  now rewrite seq_nth.
Qed.

Lemma sum_cells_no_str cs :
  existsb Pd.is_str cs = false ->
  Pd.sum_cells cs = CNum (fold_right Qplus 0 (map Pd.num_of cs)).
Proof. intros H. unfold Pd.sum_cells. now rewrite H. Qed.

Lemma no_str_column j (rs : list (string * list cell)) :
  Forall (fun r => Pd.is_str (Pd.value j r) = false) rs ->
  existsb Pd.is_str (map (Pd.value j) rs) = false.
Proof.
  intros H. apply not_true_iff_false. intros E.
  apply existsb_exists in E. destruct E as [c [Hc E]].
  apply in_map_iff in Hc. destruct Hc as [r [<- Hr]].
  rewrite Forall_forall in H. rewrite (H r Hr) in E. discriminate.
Qed.

(** The values of the row 'Other'. *)
Lemma other_row_values cols cut name j :
  Pd.index_of name cols = Some j ->
  (name = "Module Type Name" ->
   Pd.value j (other_row cols cut) = CStr "Other") /\
  (name <> "Module Type Name" ->
   Forall (fun r => Pd.is_str (Pd.value j r) = false) cut ->
   Pd.value j (other_row cols cut) =
   CNum (fold_right Qplus 0 (map (fun r => Pd.num_of (Pd.value j r)) cut))).
Proof.
  intros Hj. pose proof (index_of_lt _ _ _ Hj) as Hlt.
  unfold other_row, Pd.value, Pd.set_item. cbn [snd]. split.
  - intros ->. rewrite Hj. apply nth_set_nth_same.
    now rewrite sum_length.
  - intros N Hs.
    assert (E : nth j (Pd.sum cols cut) CNone =
                CNum (fold_right Qplus 0
                        (map (fun r => Pd.num_of (Pd.value j r)) cut))).
    { rewrite nth_sum by exact Hlt.
      rewrite sum_cells_no_str by now apply no_str_column.
      now rewrite map_map. }
    destruct (Pd.index_of "Module Type Name" cols) as [j' |] eqn:M;
      [| exact E].
    rewrite nth_set_nth_other; [exact E |].
    intros ->. apply index_of_nth_error in Hj, M. congruence.
Qed.

(** ** The frame of a parsed report *)

Lemma parse_record_complete fmt md line level name obj :
  parse_record fmt md line = Ok (Record_at level name obj) ->
  complete fmt obj.
Proof.
  unfold parse_record.
  destruct (search _ _) as [[m |] |]; cbn [bind]; try discriminate.
  destruct (early_floats fmt _) as [[[[[[sw ip] tp] pc] gp] xp] |] eqn:F;
    cbn [bind]; [| discriminate].
  destruct (too_deep _ _); [discriminate |].
  destruct (Py.float _); cbn [bind]; [| discriminate].
  intros E. injection E as _ _ <-. split; [reflexivity |].
  intros ->. cbn [glitch_power x_tran_power]. unfold early_floats in F.
  repeat (destruct (Py.float _) in F; cbn [bind] in F; [| discriminate]).
  injection F as _ _ _ _ <- <-. split; discriminate.
Qed.

Lemma read_lines_groups_complete lines st line_no st' :
  all_groups (complete (self_format (self st))) (data (self st)) ->
  (look_for_power_nums st = false -> data (self st) = []) ->
  read_lines st line_no lines = Parsed st' ->
  all_groups (complete (self_format (self st'))) (data (self st')).
Proof.
  intros H1 H2 Hr.
  apply (read_lines_invariant
           (fun s => all_groups (complete (self_format (self s)))
                                (data (self s)) /\
                     (look_for_power_nums s = false -> data (self s) = [])))
    with (lines := lines) (st := st) (line_no := line_no) (st' := st');
    auto.
  - intros s [A B]. split; [exact A | discriminate].
  - intros s L [A B]. cbn. rewrite (B L). split; [constructor | auto].
  - intros s n l s' L [A B] Hb. split.
    + pose proof (body_line_frame _ _ _ _ Hb) as [_ [F _]]. rewrite F.
      destruct (body_line_cases _ _ _ _ Hb)
        as [[-> _] | [level [name [obj [Hp Ha]]]]]; [exact A |].
      destruct (accept_data _ _ _ _ _ Ha) as [hl [_ [Hi _]]].
      eapply all_groups_insert; [exact A | | exact Hi].
      eapply parse_record_complete; eauto.
    + pose proof (body_line_frame _ _ _ _ Hb) as [E _]. congruence.
Qed.

(** The fields of a complete record: a string in the column of type
    names, a number in every other column. *)
Lemma complete_value fmt g name j :
  complete fmt g ->
  Pd.index_of name (get_header fmt) = Some j ->
  (name = "Module Type Name" ->
   Pd.is_num (nth j (get_data g) CNone) = false) /\
  (name <> "Module Type Name" ->
   Pd.is_str (nth j (get_data g) CNone) = false).
Proof.
  intros [Hf Hc] Hj. pose proof (index_of_lt _ _ _ Hj) as Hlt.
  apply index_of_nth_error in Hj. unfold get_data. rewrite Hf.
  destruct fmt; cbn [get_header List.length] in *.
  - do 6 (destruct j as [| j];
          [cbn in Hj; injection Hj as <-; split;
           [intros E; reflexivity || discriminate E
           | intros N; reflexivity || (exfalso; now apply N)] |]).
    lia.
  - destruct (Hc eq_refl) as [Hg Hx].
    destruct (glitch_power g); [| congruence].
    destruct (x_tran_power g); [| congruence].
    do 8 (destruct j as [| j];
          [cbn in Hj; injection Hj as <-; split;
           [intros E; reflexivity || discriminate E
           | intros N; reflexivity || (exfalso; now apply N)] |]).
    lia.
Qed.

Lemma filter_entries_keeps filt_str_list data_2d : forall filters_used r,
  filter_entries filt_str_list data_2d filters_used = Ok r ->
  fst r = filter (keeps filt_str_list) data_2d.
Proof.
  induction data_2d as [| entry rest IH]; intros fu r; cbn [filter_entries].
  - intros E. now injection E as <-.
  - cbn [filter]. unfold keeps at 1.
    destruct (entry_label entry) as [label |]; cbn [bind]; [| discriminate].
    destruct (first_match filt_str_list label) as [[f |] |]; cbn [bind];
      [| apply IH | discriminate].
    destruct (filter_entries filt_str_list rest _) as [r' |] eqn:E;
      cbn [bind]; [| discriminate].
    intros E'. injection E' as <-. cbn [fst]. f_equal. eapply IH; eauto.
Qed.

Lemma filter_map_comm {A B} (f : A -> B) (p : B -> bool) l :
  filter p (map f l) = map f (filter (fun x => p (f x)) l).
Proof.
  induction l as [| x l IH]; [reflexivity |]. cbn [map filter].
  destruct (p (f x)); cbn [map]; now rewrite IH.
Qed.

Lemma NoDup_map_filter {A B} (f : A -> B) (p : A -> bool) l :
  NoDup (map f l) -> NoDup (map f (filter p l)).
Proof.
  induction l as [| x l IH]; intros H; [constructor |].
  cbn [map] in H. apply NoDup_cons_iff in H. destruct H as [Hx Hl].
  cbn [filter]. destruct (p x); [| auto].
  cbn [map]. constructor; [| auto].
  intros Hin. apply Hx. apply in_map_iff in Hin.
  destruct Hin as [y [E Hy]]. apply filter_In in Hy.
  apply in_map_iff. exists y. tauto.
Qed.

Lemma make_frame_leaves pgs header df0 :
  Forall (fun pg => List.length (get_data (snd pg)) = List.length header)
         pgs ->
  Pd.make_frame (map dot_row pgs) header = Ok df0 ->
  df0 = mk_frame header (map frame_row pgs).
Proof.
  intros Hl. unfold Pd.make_frame.
  destruct (Py.max_list _) as [width |] eqn:W; cbn [bind]; [| discriminate].
  destruct (Nat.eqb_spec (width - 1) (List.length header)) as [E | N];
    [| discriminate].
  rewrite map_result_ok with (g := fun entry =>
                                     match entry with
                                     | CStr label :: values => (label, values)
                                     | _ => (EmptyString, [])
                                     end).
  - cbn [bind]. intros H. injection H as <-. f_equal.
    rewrite map_map. reflexivity.
  - intros entry Hin. apply in_map_iff in Hin. destruct Hin as [pg [<- Hin]].
    rewrite Forall_forall in Hl. unfold dot_row, Pd.label_row.
    rewrite E, (Hl pg Hin), Nat.sub_diag. cbn [repeat].
    now rewrite app_nil_r.
Qed.

Lemma sort_values_uniform df by_col j :
  Pd.index_of by_col (columns df) = Some j ->
  Forall (fun r => Pd.is_str (Pd.value j r) = false) (rows df) \/
  Forall (fun r => Pd.is_num (Pd.value j r) = false) (rows df) ->
  Pd.sort_values df by_col =
  Ok (mk_frame (columns df) (fold_right (Pd.insert_sorted j) [] (rows df))).
Proof.
  intros Hj [Hs | Hn].
  - now apply sort_values_no_str.
  - unfold Pd.sort_values. rewrite Hj.
    replace (existsb Pd.is_num (map (Pd.value j) (rows df))) with false;
      [reflexivity |].
    symmetry. apply not_true_iff_false. intros E.
    apply existsb_exists in E. destruct E as [c [Hc E]].
    apply in_map_iff in Hc. destruct Hc as [r [<- Hr]].
    rewrite Forall_forall in Hn. rewrite (Hn r Hr) in E. discriminate.
Qed.

(** The rows past [max_entries] of a sorted frame with distinct labels
    become the one row 'Other'. *)
Lemma condense_rollup df plot_col graph_kind max_entries :
  (exists df0, Pd.sort_values df0 plot_col = Ok df) ->
  (max_entries < Z.of_nat (List.length (rows df)))%Z ->
  (0 <= max_entries)%Z ->
  NoDup (map fst (rows df)) ->
  (graph_kind = "pie" -> uniform_column df plot_col) ->
  let kept := firstn (Z.to_nat max_entries) (rows df) in
  let cut := skipn (Z.to_nat max_entries) (rows df) in
  let other := other_row (columns df) cut in
  exists out,
    condense df plot_col graph_kind max_entries = Ok out /\
    columns out = columns df /\
    List.length (rows out) = (Z.to_nat max_entries + 1)%nat /\
    Permutation (rows out) (kept ++ [other]) /\
    (graph_kind <> "pie" -> rows out = kept ++ [other]) /\
    (forall j,
        Pd.index_of plot_col (columns df) = Some j ->
        Forall (fun r => Pd.is_str (Pd.value j r) = false) (rows df) ->
        forall k c, In k kept -> In c cut -> not_before j k c).
Proof.
  intros [df0 Hsort] Hlen H0 Hnd Hpie kept cut other.
  destruct (sort_values_inv _ _ _ Hsort) as [j0 [Hj0 [Hcols Hsorted]]].
  assert (Hsplit : rows df = kept ++ cut)
    by (symmetry; apply firstn_skipn).
  assert (Hkept : List.length kept = Z.to_nat max_entries).
  { unfold kept. rewrite length_firstn. lia. }
  assert (Hcond :
            condense df plot_col graph_kind max_entries =
            if String.eqb graph_kind "pie"
            then Pd.sort_values (mk_frame (columns df) (kept ++ [other]))
                                plot_col
            else Ok (mk_frame (columns df) (kept ++ [other]))).
  { unfold condense.
    destruct (Z.gtb_spec (Z.of_nat (List.length (rows df))) max_entries);
      [| lia].
    rewrite iloc_tail by lia. cbn [bind]. fold cut.
    assert (D : Pd.drop df (map fst cut) = mk_frame (columns df) kept).
    { destruct df as [cols rs]. cbn [columns rows] in *.
      unfold Pd.drop. cbn [columns rows]. f_equal.
      rewrite Hsplit at 1. rewrite Hsplit in Hnd.
      exact (drop_tail cols kept cut Hnd). }
    rewrite D. reflexivity. }
  rewrite Hcond.
  assert (Hord : forall j,
             Pd.index_of plot_col (columns df) = Some j ->
             Forall (fun r => Pd.is_str (Pd.value j r) = false) (rows df) ->
             forall k c, In k kept -> In c cut -> not_before j k c).
  { intros j Hj Hnum.
    rewrite Hcols in Hj. assert (j = j0) by congruence. subst j0.
    apply sorted_split. rewrite <- Hsplit, Hsorted.
    apply sort_sorted.
    eapply Permutation_Forall; [| exact Hnum].
    rewrite Hsorted. apply sort_perm. }
  rewrite <- Hcols in Hj0.
  destruct (String.eqb_spec graph_kind "pie") as [Epie | Npie].
  - rewrite sort_values_uniform with (j := j0); [| exact Hj0 |].
    + eexists. split; [reflexivity |]. cbn [columns rows].
      split; [reflexivity |]. split; [| split; [| split]].
      * rewrite (Permutation_length (sort_perm _ _)), length_app, Hkept.
        reflexivity.
      * apply sort_perm.
      * intros N. contradiction.
      * exact Hord.
    + cbn [rows columns].
      destruct (other_row_values (columns df) cut plot_col j0 Hj0)
        as [Vs Vn].
      destruct (Hpie Epie j0 Hj0) as [[Nname Hnum] | [Ename Hstr]].
      * left. rewrite Hsplit in Hnum. apply Forall_app in Hnum.
        apply Forall_app. split; [tauto |].
        constructor; [| constructor].
        unfold other.
        rewrite (Vn Nname (proj2 Hnum)). reflexivity.
      * right. rewrite Hsplit in Hstr. apply Forall_app in Hstr.
        apply Forall_app. split; [tauto |].
        constructor; [| constructor].
        unfold other. rewrite (Vs Ename). reflexivity.
  - eexists. split; [reflexivity |]. cbn [columns rows].
    split; [reflexivity |]. split; [| split; [| split]].
    + rewrite length_app, Hkept. reflexivity.
    + reflexivity.
    + reflexivity.
    + exact Hord.
Qed.

(** The frame of the filtered rows of a parsed and flattened report:
    its rows are rows of leaves, in the order of the plot column. *)
Lemma filtered_frame_parsed verbose max_depth path_combine logfile st
      top_name plot_col df :
  read_logfile (init verbose max_depth path_combine) logfile = Parsed st ->
  filtered_frame (fst (get_2d_hierarchy_data (self st))) top_name plot_col
  = Ok df ->
  (exists df0, Pd.sort_values df0 plot_col = Ok df) /\
  columns df = get_header (self_format (self st)) /\
  NoDup (map fst (rows df)) /\
  Forall (fun r => exists g, complete (self_format (self st)) g /\
                             snd r = get_data g) (rows df).
Proof.
  unfold read_logfile. intros Hread.
  assert (W : well_keyed None (data (self st))).
  { eapply read_lines_well_keyed; [| | exact Hread]; cbn;
      [apply well_keyed_nil | constructor]. }
  assert (C : all_groups (complete (self_format (self st))) (data (self st))).
  { eapply read_lines_groups_complete; [| | exact Hread]; cbn;
      [constructor | reflexivity]. }
  set (fmt := self_format (self st)) in *.
  set (flat := fst (get_2d_hierarchy_data (self st))).
  assert (Hlen : Forall (fun pg => List.length (get_data (snd pg)) =
                                   List.length (get_header fmt))
                        (leaves (data (self st)))).
  { eapply Forall_impl; [| exact C]. intros pg [Hf _].
    rewrite get_data_length, Hf. reflexivity. }
  assert (Hrows : dot_notated_rows flat
                  = Ok (map dot_row (leaves (data (self st))))).
  { apply (dot_notated_rows_leaves flat (List.length (get_header fmt)));
      [reflexivity | exact Hlen]. }
  unfold filtered_frame. rewrite Hrows. cbn [bind].
  unfold sorted_frame.
  destruct (filter_entries _ _ _) as [[kept fu] |] eqn:F; [| discriminate].
  cbn [bind]. apply filter_entries_keeps in F. cbn [fst] in F.
  destruct (negb _); [discriminate |].
  rewrite filter_map_comm in F.
  set (pgs := filter (fun pg => keeps (map anchor top_name) (dot_row pg))
                     (leaves (data (self st)))) in F.
  destruct kept as [| e kept']; [discriminate |]. rewrite F.
  change (self_format flat) with fmt.
  destruct (Pd.make_frame _ _) as [df0 |] eqn:M; [| discriminate].
  cbn [bind]. intros Hsort.
  apply make_frame_leaves in M.
  2:{ unfold pgs. apply Forall_forall. intros pg Hin.
      apply filter_In in Hin. rewrite Forall_forall in Hlen.
      apply Hlen. tauto. }
  split; [eauto |].
  destruct (sort_values_inv _ _ _ Hsort) as [j [_ [Hc Hr]]].
  assert (P : Permutation (rows df) (map frame_row pgs)).
  { rewrite Hr, M. apply sort_perm. }
  split; [rewrite Hc, M; reflexivity |]. split.
  - eapply Permutation_NoDup; [symmetry; apply Permutation_map; exact P |].
    rewrite map_map. cbn [frame_row fst]. unfold pgs.
    apply NoDup_map_filter. now apply well_keyed_labels.
  - eapply Permutation_Forall; [symmetry; exact P |].
    apply Forall_forall. intros r Hin. apply in_map_iff in Hin.
    destruct Hin as [pg [<- Hin]]. unfold pgs in Hin.
    apply filter_In in Hin. destruct Hin as [Hin _].
    exists (snd pg). split; [| reflexivity].
    unfold all_groups in C. rewrite Forall_forall in C. now apply C.
Qed.

(** C1, as amended.  For every parsed and flattened report, when the
    sorted frame of the filtered rows has more than [max_entries] rows
    and [max_entries >= 0], the call returns [max_entries + 1] rows:
    the first [max_entries] rows of the sorted frame and one row
    labelled 'Other', which is the last row unless the frame is sorted
    again for a pie chart.  The type name of that row is 'Other' and
    each of its other columns is the sum of the column over the rows
    that were cut.  Unless the plot column is the column of type
    names, no row that was cut is placed before a row that was kept by
    the descending order. *)
Theorem other_rollup verbose max_depth path_combine logfile st
        top_name plot_col graph_kind max_entries df :
  read_logfile (init verbose max_depth path_combine) logfile = Parsed st ->
  let flat := fst (get_2d_hierarchy_data (self st)) in
  filtered_frame flat top_name plot_col = Ok df ->
  (max_entries < Z.of_nat (List.length (rows df)))%Z ->
  (0 <= max_entries)%Z ->
  let kept := firstn (Z.to_nat max_entries) (rows df) in
  let cut := skipn (Z.to_nat max_entries) (rows df) in
  let other := other_row (columns df) cut in
  exists out,
    snd (get_filtered_dataframe flat top_name plot_col graph_kind max_entries)
    = Ok out /\
    columns out = columns df /\
    List.length (rows out) = (Z.to_nat max_entries + 1)%nat /\
    Permutation (rows out) (kept ++ [other]) /\
    (graph_kind <> "pie" -> rows out = kept ++ [other]) /\
    fst other = "Other" /\
    (forall name j,
        Pd.index_of name (columns df) = Some j ->
        (name = "Module Type Name" -> Pd.value j other = CStr "Other") /\
        (name <> "Module Type Name" ->
         Pd.value j other =
         CNum (fold_right Qplus 0
                 (map (fun r => Pd.num_of (Pd.value j r)) cut)))) /\
    (plot_col <> "Module Type Name" ->
     forall j, Pd.index_of plot_col (columns df) = Some j ->
               forall k c, In k kept -> In c cut -> not_before j k c).
Proof.
  intros Hread flat Hdf Hlen H0 kept cut other.
  destruct (filtered_frame_parsed _ _ _ _ _ _ _ _ Hread Hdf)
    as [Hsort [Hcols [Hnd Hrows]]].
  assert (Hcol : forall name j,
             Pd.index_of name (columns df) = Some j ->
             (name = "Module Type Name" ->
              Forall (fun r => Pd.is_num (Pd.value j r) = false) (rows df)) /\
             (name <> "Module Type Name" ->
              Forall (fun r => Pd.is_str (Pd.value j r) = false) (rows df))).
  { intros name j Hj. rewrite Hcols in Hj.
    split; intros Hn; eapply Forall_impl; try exact Hrows;
      intros r [g [Hg Hr]]; unfold Pd.value; rewrite Hr;
      destruct (complete_value _ _ _ _ Hg Hj); auto. }
  destruct (condense_rollup df plot_col graph_kind max_entries Hsort Hlen H0 Hnd)
    as [out (H1 & H2 & H3 & H4 & H5 & H6)].
  { intros _ j Hj. destruct (Hcol plot_col j Hj) as [Hs Hn].
    destruct (String.eqb_spec plot_col "Module Type Name"); [right | left];
      auto. }
  exists out. split.
  { unfold get_filtered_dataframe. unfold filtered_frame in Hdf.
    destruct (dot_notated_rows flat) as [data_2d |]; [| discriminate].
    cbn [bind snd] in *. rewrite Hdf. exact H1. }
  split; [exact H2 |]. split; [exact H3 |]. split; [exact H4 |].
  split; [exact H5 |]. split; [reflexivity |]. split.
  - intros name j Hj.
    destruct (other_row_values (columns df) cut name j Hj) as [Vs Vn].
    split; [exact Vs |]. intros N. apply Vn; [exact N |].
    destruct (Hcol name j Hj) as [_ Hn]. specialize (Hn N).
    rewrite <- (firstn_skipn (Z.to_nat max_entries) (rows df)) in Hn.
    apply Forall_app in Hn. tauto.
  - intros N j Hj. apply H6; [exact Hj |].
    destruct (Hcol plot_col j Hj) as [_ Hn]. auto.
Qed.

(* ================================================================== *)
(** * Further properties of the parser and the projections *)
(* ================================================================== *)

(** ** The lines before the body *)



(** ** The path stack *)


(** ** What read_logfile leaves alone *)



(** ** The records of the tree under insertion *)








(** ** The maximum depth *)




(** ** The records of a parsed report *)



(** ** The flatten with path-combine *)




(** ** The filtered frame *)







(** ** The table of the script *)



(* ================================================================== *)
(** * Examples *)
(* ================================================================== *)

(** ** The sample reports *)

Lemma sample_report_parsed :
  read_logfile (init false None false) sample_report
  = Parsed (mk_reader sample_parsed true ["A"; "C"; "D"] 2 []).
Proof. vm_compute. reflexivity. Qed.

(** ** C1 *)

Lemma rollup_has_one_row_more :
  List.length (rows frame25) = 25%nat /\
  exists out,
    snd (get_filtered_dataframe hierarchy25 [below_A] "Pct of Total Power"
                                "barh" 20) = Ok out /\
    List.length (rows out) = 21%nat /\
    map fst (skipn 19 (rows out)) = ["A.u06"; "Other"].
Proof.
  split; [reflexivity |].
  exists (match get_filtered_dataframe hierarchy25 [below_A]
                  "Pct of Total Power" "barh" 20 with
          | (_, Ok out) => out
          | (_, Raise _) => frame25
          end).
  split; [| split]; vm_compute; reflexivity.
Qed.

Lemma other_rollup_witness :
  exists out,
    snd (get_filtered_dataframe hierarchy25 [below_A] "Pct of Total Power"
                                "pie" 20) = Ok out /\
    List.length (rows out) = 21%nat /\
    exists other, In ("Other", other) (rows out) /\
                  nth 5 other CNone = CStr "Other".
Proof.
  destruct (other_rollup false None false report25 reader25 [below_A]
              "Pct of Total Power" "pie" 20 frame25)
    as [out (H1 & _ & H3 & H4 & _ & H6 & H7 & _)].
  - vm_compute. reflexivity.
  - vm_compute. reflexivity.
  - vm_compute. reflexivity.
  - vm_compute. discriminate.
  - exists out. split; [exact H1 |]. split; [exact H3 |].
    eexists. split.
    + eapply Permutation_in; [symmetry; exact H4 |].
      apply in_or_app. right. left. reflexivity.
    + destruct (H7 "Module Type Name" 5%nat eq_refl) as [E _].
      exact (E eq_refl).
Defined.

(** ** C2 *)

Lemma malformed_field_skipped :
  exists st,
    read_logfile (init true None false) malformed_report = Parsed st /\
    map fst (leaves (data (self st))) = [["C"]] /\
    stdout st =
      [Warning_no_match 1 (ln "  B (tb)                  0.5 1.0 N/A 3.0 50.0")].
Proof.
  exists (match read_logfile (init true None false) malformed_report with
          | Parsed st => st
          | Failed _ _ _ => start (init true None false)
          end).
  split; [| split]; vm_compute; reflexivity.
Qed.

Lemma body_line_skip_or_fail_witness :
  read_lines (in_body (start (init true None false))) 2
             [ln "junk"; bare_exponent_line]
  = Failed ValueError 3 bare_exponent_line.
Proof.
  pose (st := in_body (start (init true None false))).
  destruct (body_line_skip_or_fail st 2 (ln "junk") [bare_exponent_line]
                                   eq_refl) as [Hskip _].
  fold st. rewrite Hskip by (vm_compute; reflexivity).
  destruct (body_line_skip_or_fail
              (if verbose (self st) then warn st 2 (ln "junk") else st)
              3 bare_exponent_line [] eq_refl) as [_ Hfail].
  apply (Hfail (match Re.search power_compiler_pattern bare_exponent_line with
                | Some (Some m) => m
                | _ => Re.MatchObj 0 0 []
                end)).
  - vm_compute. reflexivity.
  - left. exists 4%nat. split; [now left | vm_compute; reflexivity].
Defined.

(** ** C3 *)

Lemma marker_inside_not_anchored :
  begins_with_marker "x<top block>" = false /\
  anchor "x<top block>" = "x<top block>" /\
  anchor "x<top block>" <> (top_block_prefix ++ "x<top block>")%string.
Proof. split; [| split]; [reflexivity | reflexivity | discriminate]. Qed.

(** ** C4 *)

Lemma reader_after_A_reachable :
  reachable (init false None false) reader_after_A.
Proof.
  apply (reach_body _ (in_body (start (init false None false))) 2
                    (ln "A                         1.0 2.0 3.0 6.0 100.0")).
  - apply reach_hierarchy, reach_start.
  - reflexivity.
  - vm_compute. reflexivity.
Qed.

Lemma tree_insertion_fails_fast_witness :
  update_hier_list (hier_list reader_after_A) (prev_level reader_after_A)
                   1 "A" = Ok ["A"; "A"] /\
  is_group (lookup (data (self reader_after_A)) ["A"; "A"]) /\
  exists e, accept reader_after_A 1 "A" sample_group = Raise e /\
            (e = TypeError \/ e = AttributeError).
Proof.
  destruct (tree_insertion_fails_fast false None false reader_after_A
              1 "A" sample_group reader_after_A_reachable) as [H _].
  destruct (H ["A"; "A"] eq_refl) as [_ Hraise].
  split; [reflexivity |]. split; [eexists; reflexivity |].
  apply (Hraise ["A"; "A"]).
  - discriminate.
  - exists []. reflexivity.
  - eexists. reflexivity.
Defined.

(** ** C5 *)

(** An object that has read a Prime Power report reads a Power Compiler
    report, which has no marker line, as Prime Power: none of its lines
    matches and the tree stays as it was. *)
Lemma dialect_kept_by_reused_object :
  exists st1 st2,
    read_logfile (init false None false) prime_power_report = Parsed st1 /\
    existsb (found "Glitch|X-tran") (seeking_lines sample_report) = false /\
    read_logfile (self st1) sample_report = Parsed st2 /\
    self_format (self st2) = Prime_Power /\
    data (self st2) = data (self st1).
Proof.
  exists (match read_logfile (init false None false) prime_power_report with
          | Parsed st => st
          | Failed _ _ _ => start (init false None false)
          end).
  exists (match read_logfile prime_parsed sample_report with
          | Parsed st => st
          | Failed _ _ _ => start (init false None false)
          end).
  split; [vm_compute; reflexivity |].
  split; [vm_compute; reflexivity |].
  split; [vm_compute; reflexivity |].
  split; vm_compute; reflexivity.
Qed.

Lemma dialect_latched_witness :
  exists st,
    read_logfile (init false None false) prime_power_report = Parsed st /\
    self_format (self st) = Prime_Power /\
    Forall (fun pg => logfile_format (snd pg) = Prime_Power)
           (leaves (data (self st))).
Proof.
  pose (st := match read_logfile (init false None false) prime_power_report
              with
              | Parsed st => st
              | Failed _ _ _ => start (init false None false)
              end).
  assert (H : read_logfile (init false None false) prime_power_report
              = Parsed st) by (vm_compute; reflexivity).
  destruct (dialect_latched (init false None false) prime_power_report st H)
    as (_ & Hf & _ & _ & Hl & _).
  exists st. split; [exact H |].
  assert (E : self_format (self st) = Prime_Power) by (rewrite Hf; reflexivity).
  split; [exact E |]. rewrite <- E. exact (Hl eq_refl).
Defined.

(** ** C6 *)

Lemma hierarchy_round_trip_witness :
  exists st,
    read_logfile (init false None false) sample_report = Parsed st /\
    map fst (leaves (data (self st))) =
      [["A"]; ["A"; "B"]; ["A"; "C"]; ["A"; "C"; "D"]] /\
    exists rows_2d,
      dot_notated_rows (fst (get_2d_hierarchy_data (self st))) = Ok rows_2d /\
      map (fun r => hd CNone r) rows_2d =
        [CStr "A"; CStr "A.B"; CStr "A.C"; CStr "A.C.D"].
Proof.
  pose (g := fun line =>
               match parse_record Power_Compiler None line with
               | Ok (Record_at _ _ obj) => obj
               | _ => mk_power_group Power_Compiler "" "" 0 0 0 0 0 None None
               end).
  destruct (hierarchy_round_trip false None false sample_preamble
              (ln "Hierarchy                 Switch Int Leak Total %")
              (ln "------------------------------")
              (ln "A                         1.0 2.0 3.0 6.0 100.0")
              (ln "  B (tb)                  0.5 1.0 1.5e-01 3.0 50.0")
              (ln "  C (tc)                  0.5 1.0 1.5 3.0 50.0")
              (ln "    D (td)                0.25 0.5 0.75 1.5 25.0")
              (g (ln "A                         1.0 2.0 3.0 6.0 100.0"))
              (g (ln "  B (tb)                  0.5 1.0 1.5e-01 3.0 50.0"))
              (g (ln "  C (tc)                  0.5 1.0 1.5 3.0 50.0"))
              (g (ln "    D (td)                0.25 0.5 0.75 1.5 25.0")))
    as (_ & _ & _ & st & Hr & _ & Hl & Hd).
  - repeat constructor.
  - vm_compute. reflexivity.
  - vm_compute. reflexivity.
  - vm_compute. reflexivity.
  - vm_compute. reflexivity.
  - vm_compute. reflexivity.
  - exists st. split; [exact Hr |]. split; [now rewrite Hl |].
    eexists. split; [exact Hd | reflexivity].
Defined.

(** ** C7 *)

Lemma full_flatten_empty_or_mixed :
  (read_logfile (init false None false) []
   = Parsed (start (init false None false)) /\
   leaves (data (init false None false)) = [] /\
   snd (get_2d_hierarchy_data (init false None false)) = Raise ValueError) /\
  (exists st1 st2,
      read_logfile (init false None false) sample_report = Parsed st1 /\
      read_logfile (self st1) prime_power_report = Parsed st2 /\
      self st2 = both_parsed) /\
  path_combine both_parsed = false /\
  self_format both_parsed = Prime_Power /\
  map (fun pg => (fst pg, logfile_format (snd pg))) (leaves (data both_parsed))
  = [(["A"], Prime_Power); (["A"; "B"], Prime_Power);
     (["A"; "C"], Power_Compiler); (["A"; "C"; "D"], Power_Compiler)] /\
  exists flat,
    snd (get_2d_hierarchy_data both_parsed) = Ok flat /\
    nth 2 flat [] =
      [CNone; CNone; CStr "A"; CStr "C"; CNum 0.5; CNum 1.0; CNum 1.5;
       CNum 3.0; CNum 50.0; CStr "tc"].
Proof.
  split; [repeat split |]. split.
  { exists (match read_logfile (init false None false) sample_report with
            | Parsed st => st
            | Failed _ _ _ => start (init false None false)
            end).
    exists (match read_logfile sample_parsed prime_power_report with
            | Parsed st => st
            | Failed _ _ _ => start (init false None false)
            end).
    split; [vm_compute; reflexivity |].
    split; vm_compute; reflexivity. }
  split; [reflexivity |]. split; [reflexivity |].
  split; [vm_compute; reflexivity |].
  exists (match snd (get_2d_hierarchy_data both_parsed) with
          | Ok flat => flat
          | Raise _ => []
          end).
  split; vm_compute; reflexivity.
Qed.

Lemma full_flatten_rows_witness :
  exists flat,
    snd (get_2d_hierarchy_data sample_parsed) = Ok flat /\
    List.length flat = 4%nat /\
    Forall (fun r => List.length r = 9%nat) flat /\
    nth 1 flat [] =
      [CStr "A"; CStr "B"; CNone; CNum 0.5; CNum 1.0; CNum 0.15; CNum 3.0;
       CNum 50.0; CStr "tb"].
Proof.
  destruct (full_flatten_rows sample_parsed eq_refl)
    as (_ & flat & H1 & H2 & _ & H4).
  - discriminate.
  - destruct H4 as [H4 H5]; [repeat constructor |].
    exists flat. split; [exact H1 |]. split; [exact H2 |].
    split; [exact H5 |]. rewrite H4. reflexivity.
Defined.

(** ** C8 *)

Lemma unmatched_filter_crashes_before_flatten :
  power_num_count sample_parsed = None /\
  Forall (fun pg => found (anchor "B$") (String.concat "." (fst pg)) = false)
         (leaves (data sample_parsed)) /\
  get_filtered_dataframe sample_parsed ["B$"] "Pct of Total Power" "pie" 20
  = (["B$"], Raise TypeError).
Proof.
  split; [reflexivity |]. split; [| vm_compute; reflexivity].
  repeat constructor.
Qed.

Lemma unmatched_filter_reported_witness :
  exists msg,
    snd (get_filtered_dataframe sample_flattened ["B$"; "A\."]
                                "Pct of Total Power" "pie" 20)
    = Raise (AssertionError msg) /\
    occurs_in (Py.dquote ++ "^<top block>\.B$" ++ Py.dquote)%string msg.
Proof.
  pose (data_2d := match dot_notated_rows sample_flattened with
                   | Ok d => d
                   | Raise _ => []
                   end).
  assert (U : forall filt,
             In filt (map anchor ["B$"; "A\."]) -> unmatched data_2d filt).
  { intros filt Hin entry label He Hl.
    assert (Hlab : In label ["A"; "A.B"; "A.C"; "A.C.D"]).
    { vm_compute in He.
      destruct He as [<- | [<- | [<- | [<- | []]]]]; vm_compute in Hl;
        injection Hl as <-; simpl; auto. }
    vm_compute in Hin.
    destruct Hin as [<- | [<- | []]];
      destruct Hlab as [<- | [<- | [<- | [<- | []]]]];
      vm_compute; reflexivity. }
  destruct (unmatched_filter_reported sample_flattened ["B$"; "A\."]
              "Pct of Total Power" "pie" 20 data_2d)
    as [msg [H1 H2]].
  - vm_compute. reflexivity.
  - intros filt Hin. vm_compute in Hin.
    destruct Hin as [<- | [<- | []]]; vm_compute; discriminate.
  - right. exact U.
  - exists msg. split; [exact H1 |].
    apply H2; [left; reflexivity | apply U; left; reflexivity].
Defined.

(** ** C9 *)

Lemma filtered_on_empty_tree :
  read_logfile (init false None false) []
  = Parsed (start (init false None false)) /\
  get_filtered_dataframe (init false None false) ["B$"] "Pct of Total Power"
                         "pie" 20
  = (["^<top block>\.B$"],
     Raise (AssertionError
              (cat ["Filter(s) did not collect any data: ";
                    Py.dquote; "^<top block>\.B$"; Py.dquote; ", "]))).
Proof. split; vm_compute; reflexivity. Qed.

Lemma filtered_needs_flatten_witness :
  get_filtered_dataframe sample_parsed ["B$"] "Pct of Total Power" "pie" 20
  = (["B$"], Raise TypeError) /\
  power_num_count sample_flattened = Some 6%nat.
Proof.
  destruct (filtered_needs_flatten false None false sample_report
              (mk_reader sample_parsed true ["A"; "C"; "D"] 2 [])
              ["B$"] "Pct of Total Power" "pie" 20 sample_report_parsed)
    as (_ & H2 & H3 & _).
  - discriminate.
  - split; [exact H2 | exact H3].
Defined.

(** ** C10 *)

Lemma caller_list_rewritten_witness :
  fst (get_filtered_dataframe sample_flattened ["B$"; "x<top block>"]
                              "Pct of Total Power" "pie" 20)
  = ["^<top block>\.B$"; "x<top block>"].
Proof.
  destruct (caller_list_rewritten sample_flattened ["B$"; "x<top block>"]
              "Pct of Total Power" "pie" 20) as [H _].
  - left. eexists. vm_compute. reflexivity.
  - rewrite H. reflexivity.
Defined.

(** ** Examples for the further properties *)









